(** * AI Presenter: the command queue, the display client and the question form

    A shallow embedding of
    - the command queue of PROJECT_GUIDE.md (section 6, "Queue Data Model"),
    - the display client (presenter.js: WebSocket client, slide control,
      audio playback, overlays),
    - the audience question form (ask.js),
    and the properties the specification states about them.

    Part I holds the definitions, Part II the theorems. *)

From Stdlib Require Import ZArith NArith Bool Lia String Ascii DecimalString List.
From Stdlib Require Permutation Sorted.
Import ListNotations.
Open Scope string_scope.
Open Scope list_scope.
Open Scope Z_scope.

(* ===================================================================== *)
(** * Part I: definitions *)
(* ===================================================================== *)

(** ** The command queue (PROJECT_GUIDE.md, "Queue Data Model") *)

Module Queue.

(** [class Command]: [priority] is 0 for a normal command and 1 for an
    interrupt (pause/stop). The payload dict is kept as an association
    list. *)
Record Command : Type := mkCommand
  { type : string;
    payload : list (string * string);
    timestamp : Z;
    priority : Z }.

(** [class CommandQueue]: the three attributes of the listing. *)
Record CommandQueue : Type := mkQueue
  { queue : list Command;
    current_action : option Command;
    is_busy : bool }.

(** A fresh queue: an empty deque, no current action, not busy. *)
Definition empty_queue : CommandQueue :=
  {| queue := []; current_action := None; is_busy := false |}.

(** What the engine is seen to do: a command is handed over for execution
    ([self.execute(cmd)] is called), or the running action is reported
    complete ([on_action_complete] is called). *)
Inductive Event : Type :=
| Started (cmd : Command)
| Finished.

(** The commands handed over for execution, in order. *)
Fixpoint started (l : list Event) : list Command :=
  match l with
  | [] => []
  | Started c :: l' => c :: started l'
  | Finished :: l' => started l'
  end.

(** The commands in flight after a log: handed over and not yet reported
    complete. A completion retires the oldest one. *)
Definition in_flight_step (running : list Command) (ev : Event) : list Command :=
  match ev with
  | Started c => running ++ [c]
  | Finished => tl running
  end.

Definition in_flight (l : list Event) : list Command :=
  fold_left in_flight_step l [].

(** What reaches the queue from outside: a command is submitted, or the
    dispatcher reports the running action complete. *)
Inductive Input : Type :=
| Enqueue (cmd : Command)
| ActionComplete.

Fixpoint arrivals (ins : list Input) : list Command :=
  match ins with
  | [] => []
  | Enqueue c :: ins' => c :: arrivals ins'
  | ActionComplete :: ins' => arrivals ins'
  end.

(** NORMAL priority is 0. *)
Definition normal (c : Command) : Prop := priority c = 0.

Definition normal_input (i : Input) : Prop :=
  match i with
  | Enqueue c => normal c
  | ActionComplete => True
  end.

Section Engine.

(** The state machine the queue feeds: everything [execute] and
    [interrupt] act on besides the queue object. *)
Variable Machine : Type.

Record Engine : Type := mkEngine
  { cq : CommandQueue;
    machine : Machine;
    log : list Event }.

(** The bodies of [execute] and [interrupt] are not part of the listing.
    They are parameters here: what running a command does to the state
    machine, what [execute] leaves in the [current_action] slot, and the
    whole of [interrupt]. *)
Variable run_command : Command -> Machine -> Machine.
Variable stores : Command -> option Command -> option Command.
Variable interrupt : Command -> Engine -> Engine.

Definition initial (m : Machine) : Engine :=
  {| cq := empty_queue; machine := m; log := [] |}.

(** [self.execute(cmd)]: the hand-over is recorded in the log; the deque
    and the busy flag are left to the three methods of the listing. *)
Definition execute (cmd : Command) (e : Engine) : Engine :=
  {| cq := {| queue := queue (cq e);
              current_action := stores cmd (current_action (cq e));
              is_busy := is_busy (cq e) |};
     machine := run_command cmd (machine e);
     log := log e ++ [Started cmd] |}.

(** [def process_next(self)]:
    if self.queue: cmd = self.queue.popleft(); self.is_busy = True;
    self.execute(cmd) *)
Definition process_next (e : Engine) : Engine :=
  match queue (cq e) with
  | [] => e
  | cmd :: rest =>
      execute cmd
        {| cq := {| queue := rest;
                    current_action := current_action (cq e);
                    is_busy := true |};
           machine := machine e;
           log := log e |}
  end.

(** [def on_action_complete(self)]: self.is_busy = False;
    self.process_next() *)
Definition on_action_complete (e : Engine) : Engine :=
  process_next
    {| cq := {| queue := queue (cq e);
                current_action := current_action (cq e);
                is_busy := false |};
       machine := machine e;
       log := log e ++ [Finished] |}.

(** [def enqueue(self, command)] *)
Definition enqueue (command : Command) (e : Engine) : Engine :=
  if priority command =? 1 then interrupt command e
  else
    let e1 := {| cq := {| queue := queue (cq e) ++ [command];
                          current_action := current_action (cq e);
                          is_busy := is_busy (cq e) |};
                 machine := machine e;
                 log := log e |} in
    if negb (is_busy (cq e1)) then process_next e1 else e1.

Definition step (e : Engine) (i : Input) : Engine :=
  match i with
  | Enqueue c => enqueue c e
  | ActionComplete => on_action_complete e
  end.

Definition run (ins : list Input) (e : Engine) : Engine :=
  fold_left step ins e.

(** What holds in every state the queue reaches under normal commands:
    when idle nothing is pending and nothing is in flight, when busy
    exactly one command is in flight. *)
Definition settled (e : Engine) : Prop :=
  if is_busy (cq e)
  then exists c, in_flight (log e) = [c]
  else queue (cq e) = [] /\ in_flight (log e) = [].

(** The invariant the specification states for the queue. *)
Definition busy_iff_current (q : CommandQueue) : Prop :=
  is_busy q = true <-> current_action q <> None.

End Engine.

Arguments cq {Machine} _.
Arguments machine {Machine} _.
Arguments log {Machine} _.
Arguments mkEngine {Machine} _ _ _.
Arguments initial {Machine} _.
Arguments settled {Machine} _.

(** Sample commands: [/next], [/ask] and [/qa] as the console submits
    them, with normal priority. *)
Definition next_command (t : Z) : Command :=
  {| type := "next"; payload := []; timestamp := t; priority := 0 |}.

Definition ask_command (t : Z) : Command :=
  {| type := "ask";
     payload := [("name", "Maria"); ("question", "What tools do you use?")];
     timestamp := t;
     priority := 0 |}.

Definition qa_command (t : Z) : Command :=
  {| type := "qa"; payload := []; timestamp := t; priority := 0 |}.

(** [/status] as a command: normal priority, like every command but pause
    and stop. *)
Definition status_command (t : Z) : Command :=
  {| type := "status"; payload := []; timestamp := t; priority := 0 |}.

(** A sample run: three commands arrive, the first action completing
    between the second and the third. *)
Definition sample_inputs : list Input :=
  [Enqueue (ask_command 1); Enqueue (next_command 2); ActionComplete;
   Enqueue (qa_command 3)].

(** The simplest reading of the two absent methods: [execute] leaves the
    machine and the [current_action] slot as they are, [interrupt] does
    nothing. *)
Definition execute_nothing (c : Command) (m : unit) : unit := m.
Definition stores_nothing (c : Command) (cur : option Command) : option Command := cur.
Definition interrupt_nothing (c : Command) (e : Engine unit) : Engine unit := e.

End Queue.

(** ** The state machine side (backend/agent) *)

Module StateMachine.
Import Queue.

(** [class AgentState(str, Enum)] of PROJECT_GUIDE.md, section 7. *)
Inductive AgentState : Type :=
| IDLE
| INTRODUCING
| PRESENTING
| ASKING
| WAITING_ANSWER
| RESPONDING
| TRANSITIONING
| QA_MODE
| OUTRO
| PAUSED
| DONE.

(** Modelled from the spec: the session data of section 3, as far as
    pause, resume and the router use it: the AgentState, [currentSlide],
    [totalSlides] and [savedStateOnPause], a snapshot of state and slide. *)
Record Machine : Type := mkMachine
  { agentState : AgentState;
    currentSlide : Z;
    totalSlides : Z;
    savedStateOnPause : option (AgentState * Z) }.

Definition set_agentState (s : AgentState) (m : Machine) : Machine :=
  {| agentState := s;
     currentSlide := currentSlide m;
     totalSlides := totalSlides m;
     savedStateOnPause := savedStateOnPause m |}.

(** Modelled from the spec: the body of [CommandQueue.interrupt], which the
    listing calls and does not give. Section 4.1: an INTERRUPT command is
    applied immediately: clear [current], clear the FIFO only if the kind is
    stop (pause preserves the FIFO), and move the engine to PAUSED at once;
    section 4.2, row PAUSED: snapshot the prior AgentState and the current
    slide into [savedStateOnPause]. The busy flag goes with [current]
    (section 3). *)
Definition interrupt (cmd : Command) (e : Engine Machine) : Engine Machine :=
  {| cq := {| queue := if String.eqb (type cmd) "stop" then [] else queue (cq e);
              current_action := None;
              is_busy := false |};
     machine := {| agentState := PAUSED;
                   currentSlide := currentSlide (machine e);
                   totalSlides := totalSlides (machine e);
                   savedStateOnPause :=
                     Some (agentState (machine e), currentSlide (machine e)) |};
     log := log e |}.

(** Modelled from the spec: the handling of the [resume] command, which is
    not in the repository files at hand. Section 4.2, row PAUSED: completes on [resume], next
    is "restore savedStateOnPause". Without a snapshot there is nothing to
    restore. *)
Definition resume (m : Machine) : Machine :=
  match savedStateOnPause m with
  | Some (s, n) =>
      {| agentState := s;
         currentSlide := n;
         totalSlides := totalSlides m;
         savedStateOnPause := savedStateOnPause m |}
  | None => m
  end.

(** Modelled from the spec: what the state machine does with a command the
    queue hands to it, as far as the rows of section 4.2 settle it for
    [resume]; what commands of the other kinds do is left open, as
    [others]. *)
Definition execute_command (others : Command -> Machine -> Machine)
    (cmd : Command) (m : Machine) : Machine :=
  if String.eqb (type cmd) "resume" then resume m else others cmd m.

(** Modelled from the spec: the router ([route_next_command] of
    backend/agent/actions.py, of which only two branches are quoted in the
    media commentary guide). Section 4.2, router
    policy, used after PRESENTING, RESPONDING and QA_MODE complete: examine
    the head of the FIFO, if any, and transition according to its kind (that
    transition is made when the queue hands the command over); if the FIFO
    is empty, remain in PRESENTING awaiting operator input. *)
Definition route_next_command (fifo : list Command) (m : Machine) : Machine :=
  match fifo with
  | [] => set_agentState PRESENTING m
  | _ :: _ => m
  end.

(** Modelled from the spec: what the completion of the active state leads
    to, column "Next" of the table of section 4.2 (the graph of
    PROJECT_GUIDE.md gives the nodes and edges, not the decisions). *)
Definition state_completes (fifo : list Command) (m : Machine) : Machine :=
  match agentState m with
  | INTRODUCING => set_agentState PRESENTING m
  | ASKING => set_agentState WAITING_ANSWER m
  | OUTRO => set_agentState DONE m
  | PRESENTING | RESPONDING | QA_MODE => route_next_command fifo m
  | IDLE | WAITING_ANSWER | TRANSITIONING | PAUSED | DONE => m
  end.

(** The states after whose completion the router runs. *)
Definition routed (s : AgentState) : bool :=
  match s with
  | PRESENTING | RESPONDING | QA_MODE => true
  | _ => false
  end.

Section Completion.

Variable run_command : Command -> Machine -> Machine.
Variable stores : Command -> option Command -> option Command.

(** The completion signal of the running action: the state machine settles
    its next state, then the dispatcher calls [on_action_complete] of the
    listing. *)
Definition action_completed (e : Engine Machine) : Engine Machine :=
  on_action_complete Machine run_command stores
    {| cq := cq e;
       machine := state_completes (queue (cq e)) (machine e);
       log := log e |}.

End Completion.

(** The pause and stop commands as the operator console submits them:
    priority 1. *)
Definition pause_command (args : list (string * string)) (t : Z) : Command :=
  {| type := "pause"; payload := args; timestamp := t; priority := 1 |}.

Definition stop_command (args : list (string * string)) (t : Z) : Command :=
  {| type := "stop"; payload := args; timestamp := t; priority := 1 |}.

(** The resume command: not an interrupt (section 3: only pause and stop
    have priority INTERRUPT), so priority 0. *)
Definition resume_command (args : list (string * string)) (t : Z) : Command :=
  {| type := "resume"; payload := args; timestamp := t; priority := 0 |}.

(** Scenario D of the specification: RESPONDING on slide 3 of 15, the
    [ask] in flight, [next] queued. *)
Definition scenario_D : Engine Machine :=
  mkEngine (mkQueue [next_command 2] (Some (ask_command 1)) true)
    (mkMachine RESPONDING 3 15 None) [Started (ask_command 1)].

(** The same with nothing queued. *)
Definition responding_alone : Engine Machine :=
  mkEngine (mkQueue [] (Some (ask_command 1)) true)
    (mkMachine RESPONDING 3 15 None) [Started (ask_command 1)].

(** Commands of other kinds leave the machine as it is. *)
Definition others_nothing (c : Command) (m : Machine) : Machine := m.

End StateMachine.

(** ** The display client (presenter.js) *)

Module Presenter.

(** [WebSocket.readyState]. *)
Inductive ReadyState : Type := CONNECTING | OPEN | CLOSING | CLOSED.

(** The [data] objects the client sends. *)
Inductive Data : Type :=
| no_fields
| error_field (error : string)
| slideIndex_field (slideIndex : Z).

(** [ws.send(JSON.stringify({ type, data }))]. *)
Record Outgoing : Type := mkOutgoing
  { out_type : string;
    out_data : Data }.

(** Callbacks handed to [setTimeout]. *)
Inductive Timer : Type :=
| ReconnectTimer
| RevealTimer.

Definition RECONNECT_DELAY : Z := 3000.

(** The socket and the timers: [ws], [reconnectTimer], the timeouts that
    are pending with their delays, the next timeout id, and the messages
    handed to [ws.send], oldest first. *)
Record Conn : Type := mkConn
  { ws : option ReadyState;
    reconnectTimer : option nat;
    timers : list (nat * (Timer * Z));
    next_timer : nat;
    sent : list Outgoing }.

(** Reveal.js: the horizontal index of the current slide, the number of
    slides, and the slides whose fragments were forced visible. *)
Record Deck : Type := mkDeck
  { indexh : Z;
    total : Z;
    revealed : list Z }.

Inductive AudioSrc : Type :=
| initial_src
| empty_src
| url_src (url : string)
| blob_src (bytes : list Byte.byte).

(** The [audio-player] element. *)
Record Audio : Type := mkAudio
  { src : AudioSrc;
    paused : bool }.

(** The state class of the avatar element and the [expanded] class of its
    container. *)
Inductive AvatarClass : Type :=
| avatar_idle
| avatar_speaking
| avatar_speaking_live
| avatar_thinking
| avatar_listening.

Record Avatar : Type := mkAvatar
  { avatarEl : AvatarClass;
    expanded : bool }.

(** The two overlays: whether each carries the class [hidden], and their
    texts. *)
Record Overlays : Type := mkOverlays
  { question_hidden : bool;
    response_hidden : bool;
    questionTarget : string;
    questionText : string;
    responseText : string }.

Record Stream : Type := mkStream
  { streamBuffer : list (list Byte.byte);
    isStreaming : bool;
    streamResponseText : string }.

Record Display : Type := mkDisplay
  { conn : Conn;
    deck : Deck;
    audio : Audio;
    avatar : Avatar;
    overlays : Overlays;
    stream : Stream }.

Definition with_conn (c : Conn) (d : Display) : Display :=
  mkDisplay c (deck d) (audio d) (avatar d) (overlays d) (stream d).
Definition with_deck (k : Deck) (d : Display) : Display :=
  mkDisplay (conn d) k (audio d) (avatar d) (overlays d) (stream d).
Definition with_audio (a : Audio) (d : Display) : Display :=
  mkDisplay (conn d) (deck d) a (avatar d) (overlays d) (stream d).
Definition with_avatar (a : Avatar) (d : Display) : Display :=
  mkDisplay (conn d) (deck d) (audio d) a (overlays d) (stream d).
Definition with_overlays (o : Overlays) (d : Display) : Display :=
  mkDisplay (conn d) (deck d) (audio d) (avatar d) o (stream d).
Definition with_stream (s : Stream) (d : Display) : Display :=
  mkDisplay (conn d) (deck d) (audio d) (avatar d) (overlays d) s.

(** *** WebSocket connection *)

(** [function connect()]: returns at once when the socket is open,
    otherwise replaces [ws] by a new socket, which starts CONNECTING. *)
Definition connect (d : Display) : Display :=
  match ws (conn d) with
  | Some OPEN => d
  | _ =>
      with_conn (mkConn (Some CONNECTING) (reconnectTimer (conn d))
                   (timers (conn d)) (next_timer (conn d)) (sent (conn d))) d
  end.

(** [function sendToBackend(type, data)]: sends only on an open socket;
    otherwise the message is dropped. *)
Definition sendToBackend (type : string) (data : Data) (d : Display) : Display :=
  match ws (conn d) with
  | Some OPEN =>
      with_conn (mkConn (ws (conn d)) (reconnectTimer (conn d))
                   (timers (conn d)) (next_timer (conn d))
                   (sent (conn d) ++ [mkOutgoing type data])) d
  | _ => d
  end.

(** [setTimeout(callback, delay)]: the new id and the state with the
    timeout pending. *)
Definition setTimeout (cb : Timer) (delay : Z) (d : Display) : nat * Display :=
  let id := next_timer (conn d) in
  (id, with_conn (mkConn (ws (conn d)) (reconnectTimer (conn d))
                    (timers (conn d) ++ [(id, (cb, delay))]) (S id)
                    (sent (conn d))) d).

Definition remove_timer (id : nat) (l : list (nat * (Timer * Z)))
  : list (nat * (Timer * Z)) :=
  filter (fun t => negb (Nat.eqb (fst t) id)) l.

(** [clearTimeout(reconnectTimer)]. *)
Definition clearTimeout (id : option nat) (d : Display) : Display :=
  match id with
  | None => d
  | Some i =>
      with_conn (mkConn (ws (conn d)) (reconnectTimer (conn d))
                   (remove_timer i (timers (conn d))) (next_timer (conn d))
                   (sent (conn d))) d
  end.

Definition set_readyState (r : ReadyState) (d : Display) : Display :=
  with_conn (mkConn (Some r) (reconnectTimer (conn d)) (timers (conn d))
               (next_timer (conn d)) (sent (conn d))) d.

(** [ws.onopen]: logs, then [clearTimeout(reconnectTimer)]. *)
Definition onopen (d : Display) : Display :=
  clearTimeout (reconnectTimer (conn d)) d.

(** [ws.onclose]: [reconnectTimer = setTimeout(connect, RECONNECT_DELAY)]. *)
Definition onclose (d : Display) : Display :=
  let '(id, d1) := setTimeout ReconnectTimer RECONNECT_DELAY d in
  with_conn (mkConn (ws (conn d1)) (Some id) (timers (conn d1))
               (next_timer (conn d1)) (sent (conn d1))) d1.

(** [ws.onerror]: logs. *)
Definition onerror (d : Display) : Display := d.

(** *** Overlays *)

(** JavaScript truthiness of a string that may be missing. *)
Definition truthy (s : option string) : bool :=
  match s with
  | None => false
  | Some EmptyString => false
  | Some _ => true
  end.

Definition text_of (s : option string) : string :=
  match s with
  | None => "undefined"
  | Some t => t
  end.

(** [function showQuestion(targetName, question)]. *)
Definition showQuestion (targetName : option string) (question : string)
    (d : Display) : Display :=
  with_overlays
    {| questionTarget :=
         if truthy targetName
         then ("Question for " ++ text_of targetName ++ ":")%string
         else "Question:"%string;
       questionText := question;
       question_hidden := false;
       response_hidden := true;
       responseText := responseText (overlays d) |} d.

(** [function showResponseText(text)]. *)
Definition showResponseText (text : string) (d : Display) : Display :=
  with_overlays
    {| responseText := text;
       response_hidden := false;
       question_hidden := true;
       questionTarget := questionTarget (overlays d);
       questionText := questionText (overlays d) |} d.

(** [function hideOverlays()]. *)
Definition hideOverlays (d : Display) : Display :=
  with_overlays
    {| question_hidden := true;
       response_hidden := true;
       questionTarget := questionTarget (overlays d);
       questionText := questionText (overlays d);
       responseText := responseText (overlays d) |} d.

(** *** Avatar *)

(** [function setAvatarMode(mode)]. *)
Definition setAvatarMode (mode : string) (d : Display) : Display :=
  with_avatar
    (if String.eqb mode "speaking" then mkAvatar avatar_speaking false
     else if String.eqb mode "speaking_live" then mkAvatar avatar_speaking_live true
     else if String.eqb mode "thinking" then mkAvatar avatar_thinking false
     else if String.eqb mode "listening" then mkAvatar avatar_listening false
     else mkAvatar avatar_idle false) d.

(** *** Slides *)

(** [Reveal.on('slidechanged', ...)], its first statement: the new index is
    reported to the backend. The rest of the listener starts and stops the
    carousel and pauses the music; these have a state of their own, see
    [Media.slidechanged] and, for the listener as a whole,
    [Media.slidechanged_listener]. *)
Definition slidechanged (d : Display) : Display :=
  sendToBackend "slide_changed" (slideIndex_field (indexh (deck d))) d.

(** Reveal.js, a library the page loads: [Reveal.slide(h, 0, 0)]
    brings the index into the deck ([Math.max(Math.min(h, length - 1), 0)])
    and fires [slidechanged] when the slide changes. *)
Definition Reveal_slide (h : Z) (d : Display) : Display :=
  let h' := Z.max (Z.min h (total (deck d) - 1)) 0 in
  if h' =? indexh (deck d) then d
  else slidechanged (with_deck (mkDeck h' (total (deck d)) (revealed (deck d))) d).

(** [Reveal.next()], fragments and vertical slides left aside: one slide to
    the right, staying on the last one. *)
Definition Reveal_next (d : Display) : Display :=
  Reveal_slide (Z.min (indexh (deck d) + 1) (total (deck d) - 1)) d.

(** [function gotoSlideAndRevealFragments(slideIndex)]: no range check;
    the fragments are revealed by a timeout of 100 ms. *)
Definition gotoSlideAndRevealFragments (slideIndex : Z) (d : Display) : Display :=
  snd (setTimeout RevealTimer 100 (Reveal_slide slideIndex d)).

(** The callback of that timeout: the fragments of the slide then current
    get the class [visible]. *)
Definition reveal_fragments (d : Display) : Display :=
  with_deck (mkDeck (indexh (deck d)) (total (deck d))
               (indexh (deck d) :: revealed (deck d))) d.

(** *** Audio playback *)

(** Which call of [audioPlayer.play()] a promise belongs to. *)
Inductive PlayCall : Type :=
| pre_gen (fallback : bool)
| live
| streamed.

(** [audioPlayer.src = ...; audioPlayer.load(); audioPlayer.play()]. *)
Definition load_and_play (s : AudioSrc) (d : Display) : Display :=
  with_audio (mkAudio s false) d.

Definition decimal (n : Z) : string :=
  DecimalString.NilZero.string_of_int (Z.to_int n).

Definition has_question_mark (s : string) : bool :=
  match String.index 0 "?"%string s with
  | Some _ => true
  | None => false
  end.

(** [function playPreGenAudio(audioUrl, fallback)], up to the call of
    [play()]; [now] is [Date.now()]. *)
Definition playPreGenAudio (now : Z) (audioUrl : string) (d : Display) : Display :=
  let separator := (if has_question_mark audioUrl then "&" else "?")%string in
  load_and_play (url_src (audioUrl ++ separator ++ "v=" ++ decimal now)%string)
    (hideOverlays d).

(** [function playLiveAudio(audioBase64, text)], up to the call of
    [play()]; [audioBytes] is the decoded [atob(audioBase64)]. *)
Definition playLiveAudio (audioBytes : list Byte.byte) (text : option string)
    (d : Display) : Display :=
  let d1 := hideOverlays d in
  let d2 := if truthy text then showResponseText (text_of text) d1 else d1 in
  load_and_play (blob_src audioBytes) d2.

(** The same function when [atob] throws: the overlays are already set. *)
Definition playLiveAudio_throws (text : option string) (d : Display) : Display :=
  let d1 := hideOverlays d in
  if truthy text then showResponseText (text_of text) d1 else d1.

(** [function startStreamingAudio(text)]. *)
Definition startStreamingAudio (text : option string) (d : Display) : Display :=
  let d1 := with_stream
              (mkStream [] true (if truthy text then text_of text else "")) d in
  let d2 := hideOverlays d1 in
  if truthy text then showResponseText (text_of text) d2 else d2.

(** [function assembleAndPlayStream()]. *)
Definition assembleAndPlayStream (d : Display) : Display :=
  match streamBuffer (stream d) with
  | [] => sendToBackend "audio_ended" no_fields d
  | chunks =>
      with_stream
        (mkStream [] (isStreaming (stream d)) (streamResponseText (stream d)))
        (load_and_play (blob_src (List.concat chunks)) d)
  end.

(** [function handleAudioChunk(data)]; [chunk] is the decoded chunk, [None]
    when the field is missing or empty. *)
Definition handleAudioChunk (final : bool) (chunk : option (list Byte.byte))
    (d : Display) : Display :=
  if negb (isStreaming (stream d)) then d
  else if final then
    assembleAndPlayStream
      (with_stream
         (mkStream (streamBuffer (stream d)) false
            (streamResponseText (stream d))) d)
  else
    match chunk with
    | Some bytes =>
        with_stream
          (mkStream (streamBuffer (stream d) ++ [bytes]) (isStreaming (stream d))
             (streamResponseText (stream d))) d
    | None => d
    end.

(** [function stopAudio()]. *)
Definition stopAudio (d : Display) : Display :=
  setAvatarMode "idle" (with_audio (mkAudio empty_src true) d).

(** [function pauseAll()]. *)
Definition pauseAll (d : Display) : Display :=
  hideOverlays
    (setAvatarMode "idle" (with_audio (mkAudio (src (audio d)) true) d)).

(** The catch handler of a [play()] promise. *)
Definition play_rejected (c : PlayCall) (d : Display) : Display :=
  match c with
  | pre_gen _ => sendToBackend "audio_ended" (error_field "play_failed") d
  | live => sendToBackend "audio_ended" no_fields d
  | streamed => sendToBackend "audio_ended" no_fields d
  end.

(** [audioPlayer.addEventListener('error', ...)]. *)
Definition audio_error_listener (d : Display) : Display :=
  sendToBackend "audio_ended" (error_field "load_error") d.

(** [audioPlayer.addEventListener('ended', ...)]. *)
Definition audio_ended_listener (d : Display) : Display :=
  sendToBackend "audio_ended" no_fields (hideOverlays (setAvatarMode "idle" d)).

(** *** Message handler *)

(** The messages of the backend, by [type], with the fields of [data] the
    handler reads. A field the handler tests for presence is an option. In
    [play_live_audio] and [audio_chunk] the base64 text is given decoded,
    [audioData = None] standing for text that [atob] rejects. *)
Inductive Msg : Type :=
| connected (message : string)
| advance_slide
| goto_slide (slideIndex : option Z)
| play_audio (audioUrl : option string) (fallback : bool)
| play_live_audio (audioData : option (list Byte.byte)) (responseText : option string)
| stream_audio_start (responseText : option string)
| audio_chunk (final : bool) (chunk : option (list Byte.byte))
| show_question (targetName : option string) (question : string)
| show_response_text (text : string)
| show_avatar (mode : string)
| hide_avatar
| stop_audio
| pause
| status (data : list (string * string))
| pong
| other (type : string).

(** How a call of [handleMessage] ends: it returns, or an exception leaves
    it (and is caught and logged by [ws.onmessage]). *)
Inductive Outcome : Type :=
| Returned
| Threw (name : string).

(** [function handleMessage(msg)]; [now] is the clock. *)
Definition handleMessage (now : Z) (msg : Msg) (d : Display) : Display * Outcome :=
  match msg with
  | connected _ => (d, Returned)
  | advance_slide => (Reveal_next d, Returned)
  | goto_slide slideIndex =>
      (gotoSlideAndRevealFragments
         (match slideIndex with
          | Some 0 | None => 0
          | Some n => n
          end) d, Returned)
  | play_audio (Some audioUrl) _ => (playPreGenAudio now audioUrl d, Returned)
  | play_audio None _ => (hideOverlays d, Threw "TypeError")
  | play_live_audio (Some bytes) text => (playLiveAudio bytes text d, Returned)
  | play_live_audio None text =>
      (playLiveAudio_throws text d, Threw "InvalidCharacterError")
  | stream_audio_start text => (startStreamingAudio text d, Returned)
  | audio_chunk final chunk => (handleAudioChunk final chunk d, Returned)
  | show_question targetName question => (showQuestion targetName question d, Returned)
  | show_response_text text => (showResponseText text d, Returned)
  | show_avatar mode => (setAvatarMode mode d, Returned)
  | hide_avatar => (setAvatarMode "idle" d, Returned)
  | stop_audio => (stopAudio d, Returned)
  | pause => (pauseAll d, Returned)
  | status _ => (d, Returned)
  | pong => (d, Returned)
  | other _ => (d, Returned)
  end.

(** [ws.onmessage]: [JSON.parse] then [handleMessage], both inside
    [try]; [None] is a text that does not parse. *)
Definition onmessage (now : Z) (parsed : option Msg) (d : Display) : Display :=
  match parsed with
  | Some msg => fst (handleMessage now msg d)
  | None => d
  end.

(** *** The client as a whole *)

(** What the browser delivers to the client. *)
Inductive BrowserEvent : Type :=
| WsOpen
| WsMessage (now : Z) (parsed : option Msg)
| WsClose
| WsError
| TimerFires (id : nat)
| AudioEnded
| AudioError
| PlayRejected (call : PlayCall)
| Heartbeat.

Definition fire_timer (id : nat) (d : Display) : Display :=
  match find (fun t => Nat.eqb (fst t) id) (timers (conn d)) with
  | None => d
  | Some (_, (cb, _)) =>
      let d1 := with_conn (mkConn (ws (conn d)) (reconnectTimer (conn d))
                             (remove_timer id (timers (conn d)))
                             (next_timer (conn d)) (sent (conn d))) d in
      match cb with
      | ReconnectTimer => connect d1
      | RevealTimer => reveal_fragments d1
      end
  end.

(** The audio element when a playback is over, because it reached its end,
    its source failed or [play()] was refused: [paused] is true again. *)
Definition playback_over (d : Display) : Display :=
  with_audio (mkAudio (src (audio d)) true) d.

(** The browser sets the state of the socket or of the audio element, then
    calls the listener. *)
Definition handle (d : Display) (ev : BrowserEvent) : Display :=
  match ev with
  | WsOpen => onopen (set_readyState OPEN d)
  | WsMessage now parsed => onmessage now parsed d
  | WsClose => onclose (set_readyState CLOSED d)
  | WsError => onerror d
  | TimerFires id => fire_timer id d
  | AudioEnded => audio_ended_listener (playback_over d)
  | AudioError => audio_error_listener (playback_over d)
  | PlayRejected call => play_rejected call (playback_over d)
  | Heartbeat => sendToBackend "ping" no_fields d
  end.

Definition deliver (evs : list BrowserEvent) (d : Display) : Display :=
  fold_left handle evs d.

(** The ids of the pending timeouts are ids already given out. *)
Definition timers_fresh (d : Display) : Prop :=
  Forall (fun t => (fst t < next_timer (conn d))%nat) (timers (conn d)).

(** How one playback started by [load_and_play] can turn out, and what the
    audio element then delivers (HTML standard, media elements): playback
    that runs to its end fires [ended]; a [play()] the browser refuses
    (autoplay policy) rejects the promise; a source that cannot be loaded
    fires [error] on the element and rejects the pending promise as well. *)
Inductive Playback : Type :=
| plays_to_end
| play_refused
| source_fails.

Definition playback_events (call : PlayCall) (p : Playback) : list BrowserEvent :=
  match p with
  | plays_to_end => [AudioEnded]
  | play_refused => [PlayRejected call]
  | source_fails => [AudioError; PlayRejected call]
  end.

(** The overlays exclude one another: not both without [hidden]. *)
Definition overlays_exclusive (d : Display) : Prop :=
  question_hidden (overlays d) = true \/ response_hidden (overlays d) = true.

(** The completion signals among the messages sent. *)
Definition completion_signals (l : list Outgoing) : list Outgoing :=
  filter (fun o => String.eqb (out_type o) "audio_ended") l.

(** The requests for a status snapshot among the messages sent. *)
Definition status_requests (l : list Outgoing) : list Outgoing :=
  filter (fun o => String.eqb (out_type o) "status") l.

(** A display that is connected, on slide [i] of [n], silent, with both
    overlays hidden. *)
Definition connected_display (i n : Z) : Display :=
  {| conn := mkConn (Some OPEN) None [] 0%nat [];
     deck := mkDeck i n [];
     audio := mkAudio initial_src true;
     avatar := mkAvatar avatar_idle false;
     overlays := mkOverlays true true "" "" "";
     stream := mkStream [] false "" |}.

End Presenter.

(** ** The audience question form (ask.js) *)

Module Ask.

(** A JavaScript string: its UTF-16 code units. *)
Definition jsstring : Type := list N.

Definition of_string (s : string) : jsstring :=
  map (fun a => N_of_ascii a) (list_ascii_of_string s).

(** The code units [String.prototype.trim] strips: WhiteSpace and
    LineTerminator of ECMAScript. *)
Definition is_white_space (u : N) : bool :=
  ((u =? 0x9) || (u =? 0xA) || (u =? 0xB) || (u =? 0xC) || (u =? 0xD)
   || (u =? 0x20) || (u =? 0xA0) || (u =? 0x1680)
   || ((0x2000 <=? u) && (u <=? 0x200A))
   || (u =? 0x2028) || (u =? 0x2029) || (u =? 0x202F) || (u =? 0x205F)
   || (u =? 0x3000) || (u =? 0xFEFF))%N.

Fixpoint trim_start (s : jsstring) : jsstring :=
  match s with
  | [] => []
  | u :: s' => if is_white_space u then trim_start s' else s
  end.

Definition trim (s : jsstring) : jsstring :=
  rev (trim_start (rev (trim_start s))).

(** Nothing but white space. *)
Definition blank (s : jsstring) : bool := forallb is_white_space s.

(** [style.display] of an element: not set by the script so far, or the
    value the script gave it. *)
Inductive CssDisplay : Type :=
| as_loaded
| none
| block.

(** The elements of the page the script reads and writes. *)
Record Form : Type := mkForm
  { nameInput_value : jsstring;
    questionInput_value : jsstring;
    submitBtn_disabled : bool;
    submitBtn_textContent : jsstring;
    charCount_textContent : N;
    form_display : CssDisplay;
    successMessage_display : CssDisplay;
    errorMessage_textContent : jsstring;
    errorMessage_display : CssDisplay }.

(** The body of the request, before [JSON.stringify]: [name] is [null]
    ([None]) or a string. *)
Record Body : Type := mkBody
  { name : option jsstring;
    question : jsstring }.

(** A call of [fetch]. *)
Record Request : Type := mkRequest
  { url : string;
    method : string;
    content_type : string;
    body : Body }.

(** How the awaited [fetch] and [response.json()] turn out. In a response
    that is not [ok] the body may hold any JSON value under [detail]:
    [response_not_ok] is a [detail] that is a string, or missing or falsy
    ([None]); [response_not_ok_other] is a truthy [detail] that is not a
    string (a list of validation errors, say), given by [converted], the
    text [new Error(detail)] makes of it, which is empty for an empty
    list. [json_rejects] is a body that does not parse, or one with no
    object to read [detail] from: an exception with [message]. *)
Inductive Reply : Type :=
| fetch_rejects (message : jsstring)
| response_ok
| response_not_ok (detail : option jsstring)
| response_not_ok_other (converted : jsstring)
| json_rejects (message : jsstring).

(** [questionInput.addEventListener('input', ...)]. *)
Definition on_input (f : Form) : Form :=
  {| nameInput_value := nameInput_value f;
     questionInput_value := questionInput_value f;
     submitBtn_disabled := submitBtn_disabled f;
     submitBtn_textContent := submitBtn_textContent f;
     charCount_textContent := N.of_nat (List.length (questionInput_value f));
     form_display := form_display f;
     successMessage_display := successMessage_display f;
     errorMessage_textContent := errorMessage_textContent f;
     errorMessage_display := errorMessage_display f |}.

(** [function showError(msg)]. *)
Definition showError (msg : jsstring) (f : Form) : Form :=
  {| nameInput_value := nameInput_value f;
     questionInput_value := questionInput_value f;
     submitBtn_disabled := submitBtn_disabled f;
     submitBtn_textContent := submitBtn_textContent f;
     charCount_textContent := charCount_textContent f;
     form_display := form_display f;
     successMessage_display := successMessage_display f;
     errorMessage_textContent := msg;
     errorMessage_display := block |}.

(** [function hideError()]. *)
Definition hideError (f : Form) : Form :=
  {| nameInput_value := nameInput_value f;
     questionInput_value := questionInput_value f;
     submitBtn_disabled := submitBtn_disabled f;
     submitBtn_textContent := submitBtn_textContent f;
     charCount_textContent := charCount_textContent f;
     form_display := form_display f;
     successMessage_display := successMessage_display f;
     errorMessage_textContent := errorMessage_textContent f;
     errorMessage_display := none |}.

Definition set_submitBtn (disabled : bool) (text : jsstring) (f : Form) : Form :=
  {| nameInput_value := nameInput_value f;
     questionInput_value := questionInput_value f;
     submitBtn_disabled := disabled;
     submitBtn_textContent := text;
     charCount_textContent := charCount_textContent f;
     form_display := form_display f;
     successMessage_display := successMessage_display f;
     errorMessage_textContent := errorMessage_textContent f;
     errorMessage_display := errorMessage_display f |}.

(** [form.style.display = 'none'; successMessage.style.display = 'block']. *)
Definition show_success (f : Form) : Form :=
  {| nameInput_value := nameInput_value f;
     questionInput_value := questionInput_value f;
     submitBtn_disabled := submitBtn_disabled f;
     submitBtn_textContent := submitBtn_textContent f;
     charCount_textContent := charCount_textContent f;
     form_display := none;
     successMessage_display := block;
     errorMessage_textContent := errorMessage_textContent f;
     errorMessage_display := errorMessage_display f |}.

(** [a || b] on strings: the empty string is falsy. *)
Definition or_else (a b : jsstring) : jsstring :=
  match a with
  | [] => b
  | _ :: _ => a
  end.

(** The [catch] block of the submit listener, [message] being
    [err.message]. *)
Definition on_catch (message : jsstring) (f : Form) : Form :=
  set_submitBtn false (of_string "Submit Question")
    (showError (or_else message (of_string "Something went wrong. Please try again.")) f).

(** The request the listener builds from the trimmed fields. *)
Definition submit_request (name question : jsstring) : Request :=
  {| url := "/api/questions/submit";
     method := "POST";
     content_type := "application/json";
     body := {| name := match name with [] => None | _ :: _ => Some name end;
                question := question |} |}.

(** The part of the listener that follows [await fetch(...)]. *)
Definition after_fetch (r : Reply) (f : Form) : Form :=
  match r with
  | fetch_rejects message => on_catch message f
  | response_ok => show_success f
  | response_not_ok detail =>
      on_catch
        (match detail with
         | Some (u :: t) => u :: t
         | Some [] | None => of_string "Submission failed."
         end) f
  | response_not_ok_other converted => on_catch converted f
  | json_rejects message => on_catch message f
  end.

(** [form.addEventListener('submit', async function (e) {...})]: the form
    after the listener has run to its end, and the calls of [fetch] it
    made, given how the one awaited call turns out. ([e.preventDefault()]
    keeps the browser from sending the form itself.) *)
Definition on_submit (r : Reply) (f : Form) : Form * list Request :=
  let name := trim (nameInput_value f) in
  let question := trim (questionInput_value f) in
  match question with
  | [] => (showError (of_string "Please enter a question.") f, [])
  | _ :: _ =>
      let f1 := hideError (set_submitBtn true (of_string "Submitting...") f) in
      (after_fetch r f1, [submit_request name question])
  end.

(** The page as loaded, with the two fields filled in. *)
Definition fresh_form (name question : string) : Form :=
  {| nameInput_value := of_string name;
     questionInput_value := of_string question;
     submitBtn_disabled := false;
     submitBtn_textContent := of_string "Submit Question";
     charCount_textContent := 0%N;
     form_display := as_loaded;
     successMessage_display := as_loaded;
     errorMessage_textContent := [];
     errorMessage_display := as_loaded |}.

End Ask.

(** ** The Supabase persistence layer (backend/services/supabase_service.py,
       as listed in the implementation guide) *)

Module Supabase.

(** The three environment variables the module reads; [None] is a variable
    that is not set. *)
Record Env : Type := mkEnv
  { SUPABASE_URL : option string;
    SUPABASE_ANON_KEY : option string;
    QA_SESSION_ID : option string }.

(** Truth value of a Python [str] or [None]. *)
Definition truthy (s : option string) : bool :=
  match s with
  | Some (String _ _) => true
  | Some EmptyString | None => false
  end.

(** [os.getenv(name, default)]. *)
Definition getenv (v : option string) (default : string) : string :=
  match v with
  | Some s => s
  | None => default
  end.

(** The client [create_client(url, key)] returns. *)
Record Client : Type := mkClient
  { client_url : string;
    client_key : string }.

(** A row of the table [questions], with the columns the module writes. *)
Record Row : Type := mkRow
  { id : Z;
    session_id : string;
    name : option string;
    question : string;
    status : string;
    answer : option string;
    answered_at : option string }.

(** The module global [_client] and the table behind the client. *)
Record World : Type := mkWorld
  { _client : option Client;
    questions : list Row }.

(** Whether the calls that may raise go through: [create_client], and the
    request that [execute()] sends. *)
Record Luck : Type := mkLuck
  { create_client_ok : bool;
    request_ok : bool }.

(** [def get_client()]. *)
Definition get_client (env : Env) (luck : Luck) (w : World) : option Client * World :=
  match _client w with
  | Some c => (Some c, w)
  | None =>
      if negb (truthy (SUPABASE_URL env)) || negb (truthy (SUPABASE_ANON_KEY env))
      then (None, w)
      else if create_client_ok luck
           then let c := mkClient (getenv (SUPABASE_URL env) "")
                           (getenv (SUPABASE_ANON_KEY env) "") in
                (Some c, mkWorld (Some c) (questions w))
           else (None, w)
  end.

(** [session_id or os.getenv("QA_SESSION_ID", "default")]. *)
Definition session_of (env : Env) (for_session : option string) : string :=
  if truthy for_session then getenv for_session ""
  else getenv (QA_SESSION_ID env) "default".

Definition has_id (question_id : Z) (rows : list Row) : bool :=
  existsb (fun r => id r =? question_id) rows.

(** The row an insert of the five given columns makes. *)
Definition new_row (question_id : Z) (question : string) (name : option string)
    (session : string) : Row :=
  {| id := question_id;
     session_id := session;
     name := name;
     question := question;
     status := "pending";
     answer := None;
     answered_at := None |}.

(** [def persist_question(question_id, question, name, session_id)];
    [for_session] is the argument [session_id]. The insert raises when the
    request fails or the primary key is taken. *)
Definition persist_question (env : Env) (luck : Luck) (question_id : Z)
    (question : string) (name for_session : option string) (w : World)
  : bool * World :=
  match get_client env luck w with
  | (None, w1) => (false, w1)
  | (Some _, w1) =>
      if request_ok luck && negb (has_id question_id (questions w1))
      then (true,
            mkWorld (_client w1)
              (questions w1
               ++ [new_row question_id question name (session_of env for_session)]))
      else (false, w1)
  end.

(** The payload of an update applied to a row. *)
Definition apply_update (new_status : string) (new_answer : option string)
    (r : Row) : Row :=
  {| id := id r;
     session_id := session_id r;
     name := name r;
     question := question r;
     status := new_status;
     answer := if truthy new_answer then new_answer else answer r;
     answered_at := if truthy new_answer then Some "now()" else answered_at r |}.

Definition matches (question_id : Z) (session : string) (r : Row) : bool :=
  (id r =? question_id) && String.eqb (session_id r) session.

(** [def update_question_status(question_id, status, answer)]. *)
Definition update_question_status (env : Env) (luck : Luck) (question_id : Z)
    (new_status : string) (new_answer : option string) (w : World) : bool * World :=
  match get_client env luck w with
  | (None, w1) => (false, w1)
  | (Some _, w1) =>
      if request_ok luck
      then (true,
            mkWorld (_client w1)
              (map (fun r => if matches question_id (getenv (QA_SESSION_ID env) "default") r
                             then apply_update new_status new_answer r else r)
                 (questions w1)))
      else (false, w1)
  end.

(** [.order("id")]. *)
Fixpoint insert_row (r : Row) (l : list Row) : list Row :=
  match l with
  | [] => [r]
  | x :: l' => if id r <=? id x then r :: l else x :: insert_row r l'
  end.

Definition order_by_id (l : list Row) : list Row := fold_right insert_row [] l.

(** [def get_session_questions(session_id)]; [for_session] is the
    argument [session_id]. *)
Definition get_session_questions (env : Env) (luck : Luck)
    (for_session : option string) (w : World) : list Row * World :=
  match get_client env luck w with
  | (None, w1) => ([], w1)
  | (Some _, w1) =>
      if request_ok luck
      then (order_by_id
              (filter (fun r => String.eqb (session_id r) (session_of env for_session))
                 (questions w1)),
            w1)
      else ([], w1)
  end.

(** Supabase is configured. *)
Definition configured (env : Env) : bool :=
  truthy (SUPABASE_URL env) && truthy (SUPABASE_ANON_KEY env).

(** Everything goes through. *)
Definition lucky : Luck := mkLuck true true.

(** The environment of the guide. *)
Definition guide_env : Env :=
  {| SUPABASE_URL := Some "https://your-project-id.supabase.co";
     SUPABASE_ANON_KEY := Some "your-anon-key-here";
     QA_SESSION_ID := Some "presentation_2025_02_18" |}.

Definition fresh_world : World := mkWorld None [].

(** Sample tables: one out of id order with a row of another session, one
    with a question filed under a session other than that of the
    environment. *)
Definition unsorted_world : World :=
  mkWorld (Some (mkClient "u" "k"))
    [new_row 2 "B?" None "s"; new_row 1 "A?" None "s"; new_row 3 "C?" None "t"].

Definition two_sessions_world : World :=
  mkWorld (Some (mkClient "u" "k"))
    [new_row 1 "A?" None "presentation_2025_02_18";
     new_row 2 "B?" None "rehearsal"].

End Supabase.

(** ** The command queue: commands that are not interrupts *)

Module QueueMore.
Import Queue.

(** The test of [enqueue] is [command.priority == 1]: a command of any
    other priority takes the branch of the normal commands. *)
Definition queued (c : Command) : Prop := priority c <> 1.

Definition queued_input (i : Input) : Prop :=
  match i with
  | Enqueue c => queued c
  | ActionComplete => True
  end.

(** Commands with priorities the listing does not name. *)
Definition urgent_command (t : Z) : Command :=
  {| type := "goto"; payload := [("slide_number", "5")]; timestamp := t;
     priority := 2 |}.

Definition lazy_command (t : Z) : Command :=
  {| type := "example"; payload := []; timestamp := t; priority := -1 |}.

End QueueMore.

(** ** The display client: notions for further properties *)

Module PresenterMore.
Import Presenter.

(** The [expanded] class of the container goes with the live-speaking
    class of the avatar. *)
Definition avatar_consistent (d : Display) : Prop :=
  expanded (avatar d) = true <-> avatarEl (avatar d) = avatar_speaking_live.

(** The index [Reveal.slide] settles on when asked for [h]. *)
Definition clamp (h : Z) (d : Display) : Z :=
  Z.max (Z.min h (total (deck d) - 1)) 0.

Definition is_open (ev : BrowserEvent) : bool :=
  match ev with
  | WsOpen => true
  | _ => false
  end.

(** A stream as the backend sends it: the start message, one message per
    chunk, the final message. *)
Definition chunk_messages (now : Z) (chunks : list (list Byte.byte))
  : list BrowserEvent :=
  map (fun c => WsMessage now (Some (audio_chunk false (Some c)))) chunks.

Definition stream_messages (now : Z) (text : option string)
    (chunks : list (list Byte.byte)) : list BrowserEvent :=
  WsMessage now (Some (stream_audio_start text))
  :: chunk_messages now chunks
  ++ [WsMessage now (Some (audio_chunk true None))].

End PresenterMore.

(** ** The earlier display client (frontend/js/presenter.js) *)

Module PresenterV1.
Import Presenter.

(** [function playPreGenAudio(audioUrl, fallback)] of the earlier file:
    the URL is used as it comes; a missing URL is assigned as the text
    "undefined". *)
Definition playPreGenAudio (audioUrl : option string) (d : Display) : Display :=
  load_and_play (url_src (text_of audioUrl)) (hideOverlays d).

(** [function handleMessage(msg)] of the earlier file. It has no case for
    [stream_audio_start], [audio_chunk] and [stop_audio], which fall to
    [default], and [goto_slide] calls [Reveal.slide] alone. *)
Definition handleMessage (msg : Msg) (d : Display) : Display * Outcome :=
  match msg with
  | connected _ => (d, Returned)
  | advance_slide => (Reveal_next d, Returned)
  | goto_slide slideIndex =>
      (Reveal_slide
         (match slideIndex with
          | Some 0 | None => 0
          | Some n => n
          end) d, Returned)
  | play_audio audioUrl _ => (playPreGenAudio audioUrl d, Returned)
  | play_live_audio (Some bytes) text => (playLiveAudio bytes text d, Returned)
  | play_live_audio None text =>
      (playLiveAudio_throws text d, Threw "InvalidCharacterError")
  | show_question targetName question => (showQuestion targetName question d, Returned)
  | show_response_text text => (showResponseText text d, Returned)
  | show_avatar mode => (setAvatarMode mode d, Returned)
  | hide_avatar => (setAvatarMode "idle" d, Returned)
  | pause => (pauseAll d, Returned)
  | status _ => (d, Returned)
  | pong => (d, Returned)
  | stream_audio_start _ | audio_chunk _ _ | stop_audio | other _ => (d, Returned)
  end.

Definition onmessage (parsed : option Msg) (d : Display) : Display :=
  match parsed with
  | Some msg => fst (handleMessage msg d)
  | None => d
  end.

(** The catch handlers of the earlier file: both send [audio_ended] with
    an empty [data]. *)
Definition play_rejected (c : PlayCall) (d : Display) : Display :=
  sendToBackend "audio_ended" no_fields d.

(** The earlier client as a whole. It has no listener for the [error]
    event of the audio element, and sets no timeout but the reconnect. *)
Definition handle (d : Display) (ev : BrowserEvent) : Display :=
  match ev with
  | WsOpen => onopen (set_readyState OPEN d)
  | WsMessage _ parsed => onmessage parsed d
  | WsClose => onclose (set_readyState CLOSED d)
  | WsError => onerror d
  | TimerFires id => fire_timer id d
  | AudioEnded => audio_ended_listener (playback_over d)
  | AudioError => playback_over d
  | PlayRejected call => play_rejected call (playback_over d)
  | Heartbeat => sendToBackend "ping" no_fields d
  end.

Definition deliver (evs : list BrowserEvent) (d : Display) : Display :=
  fold_left handle evs d.

End PresenterV1.

(** ** The avatar module (avatar.js) *)

Module AvatarJs.

(** [String.prototype.replace] with the pattern ['_'] and the replacement
    ['-']: the first underscore only. *)
Fixpoint replace_underscore (s : string) : string :=
  match s with
  | EmptyString => EmptyString
  | String c s' =>
      if Ascii.eqb c "_" then String "-" s' else String c (replace_underscore s')
  end.

(** [window.DexIQAvatar] and the element with id [avatar]: [className] is
    [None] when the page has no such element. *)
Record State : Type := mkState
  { currentMode : string;
    className : option string }.

(** [setMode: function (mode)]. *)
Definition setMode (mode : string) (s : State) : State :=
  {| currentMode := mode;
     className :=
       match className s with
       | None => None
       | Some _ => Some ("avatar avatar-" ++ replace_underscore mode)%string
       end |}.

(** [getMode: function ()]. *)
Definition getMode (s : State) : string := currentMode s.

(** The [className] that [setAvatarMode] of presenter.js leaves on the
    same element: ['avatar'] and the class added to it. *)
Definition presenter_className (c : Presenter.AvatarClass) : string :=
  match c with
  | Presenter.avatar_idle => "avatar avatar-idle"
  | Presenter.avatar_speaking => "avatar avatar-speaking"
  | Presenter.avatar_speaking_live => "avatar avatar-speaking-live"
  | Presenter.avatar_thinking => "avatar avatar-thinking"
  | Presenter.avatar_listening => "avatar avatar-listening"
  end.

(** The modes the documentation of [setMode] names. *)
Definition modes : list string :=
  ["idle"; "speaking"; "speaking_live"; "thinking"; "listening"].

Definition has_underscore (s : string) : bool :=
  existsb (fun c => Ascii.eqb c "_") (list_ascii_of_string s).

End AvatarJs.

(** ** The carousel, the music player and the video of slides 9 and 10
       (presenter.js) *)

Module Media.

(** The texts the script gives the two buttons: ['Pause'], ['Play'] and
    ['Play Sample'], each after its symbol; [label_as_loaded] is the text
    of the page before the script touches it. *)
Inductive Label : Type :=
| label_as_loaded
| label_pause
| label_play
| label_play_sample.

(** [items.forEach(... classList.toggle('active', i === index))]: of [n]
    elements the one at [index] is active, if there is one. *)
Definition mark (index n : nat) : list bool :=
  map (fun i => Nat.eqb i index) (seq 0 n).

(** The carousel: the class [active] of every [.carousel-item] and
    [.carousel-dot], whether the dots have their click handlers,
    [carouselIndex], [carouselTimer], and the intervals that are running
    with the id the next one gets. [setInterval] returns a positive id, so
    [carouselTimer] is truthy exactly when it is set. *)
Record Carousel : Type := mkCarousel
  { items : list bool;
    dots : list bool;
    dots_wired : bool;
    carouselIndex : nat;
    carouselTimer : option nat;
    intervals : list nat;
    next_interval : nat }.

(** [function showCarouselItem(items, dots, index)], after
    [carouselIndex] is set to [index]. *)
Definition showCarouselItem (index : nat) (c : Carousel) : Carousel :=
  {| items := mark index (length (items c));
     dots := mark index (length (dots c));
     dots_wired := dots_wired c;
     carouselIndex := index;
     carouselTimer := carouselTimer c;
     intervals := intervals c;
     next_interval := next_interval c |}.

(** [function stopCarousel()]. *)
Definition stopCarousel (c : Carousel) : Carousel :=
  match carouselTimer c with
  | Some id =>
      {| items := items c;
         dots := dots c;
         dots_wired := dots_wired c;
         carouselIndex := carouselIndex c;
         carouselTimer := None;
         intervals := filter (fun i => negb (Nat.eqb i id)) (intervals c);
         next_interval := next_interval c |}
  | None => c
  end.

(** [function initCarousel()]. *)
Definition initCarousel (c : Carousel) : Carousel :=
  match items c with
  | [] => c
  | _ :: _ =>
      let c1 := stopCarousel (showCarouselItem 0 c) in
      {| items := items c1;
         dots := dots c1;
         dots_wired := true;
         carouselIndex := carouselIndex c1;
         carouselTimer := Some (next_interval c1);
         intervals := intervals c1 ++ [next_interval c1];
         next_interval := S (next_interval c1) |}
  end.

(** The callback of the interval: one item further, around the end. *)
Definition carousel_tick (id : nat) (c : Carousel) : Carousel :=
  if existsb (Nat.eqb id) (intervals c)
  then showCarouselItem ((carouselIndex c + 1) mod length (items c)) c
  else c.

(** [dot.onclick] of dot [i]. *)
Definition dot_click (i : nat) (c : Carousel) : Carousel :=
  if dots_wired c && (i <? length (dots c))%nat
  then showCarouselItem i c
  else c.

(** The music player: [musicAudio] ([None] for [null], else whether the
    audio is paused), the text of the button, and the class [playing] of
    the visualiser, [None] when the page has no visualiser. *)
Record Music : Type := mkMusic
  { musicAudio : option bool;
    musicBtn : Label;
    visualiser : option bool }.

Definition set_playing (b : bool) (v : option bool) : option bool :=
  match v with
  | None => None
  | Some _ => Some b
  end.

(** The click listener of [.music-play-btn]. *)
Definition music_click (m : Music) : Music :=
  let is_paused :=
    match musicAudio m with
    | None => true
    | Some p => p
    end in
  if is_paused
  then {| musicAudio := Some false;
          musicBtn := label_pause;
          visualiser := set_playing true (visualiser m) |}
  else {| musicAudio := Some true;
          musicBtn := label_play_sample;
          visualiser := set_playing false (visualiser m) |}.

(** The [ended] listener of the music. *)
Definition music_ended (m : Music) : Music :=
  {| musicAudio := None;
     musicBtn := label_play_sample;
     visualiser := set_playing false (visualiser m) |}.

(** [play()] is refused: the catch handler only logs, and the audio is
    paused as before the call. *)
Definition music_play_rejected (m : Music) : Music :=
  {| musicAudio := match musicAudio m with
                   | None => None
                   | Some _ => Some true
                   end;
     musicBtn := musicBtn m;
     visualiser := visualiser m |}.

(** [function pauseMusicPlayer()]. *)
Definition pauseMusicPlayer (m : Music) : Music :=
  match musicAudio m with
  | Some false =>
      {| musicAudio := Some true;
         musicBtn := label_play_sample;
         visualiser := set_playing false (visualiser m) |}
  | _ => m
  end.

(** The video of slide 9 and its button. *)
Record Video : Type := mkVideo
  { video_paused : bool;
    playBtn : Label }.

(** The click listener of [.video-play-btn]. *)
Definition video_click (v : Video) : Video :=
  if video_paused v
  then {| video_paused := false; playBtn := label_pause |}
  else {| video_paused := true; playBtn := label_play |}.

(** The [ended] listener of the video; the video is paused at its end. *)
Definition video_ended (v : Video) : Video :=
  {| video_paused := true; playBtn := label_play |}.

Record Page : Type := mkPage
  { carousel : Carousel;
    music : Music;
    video : Video }.

(** The part of the [slidechanged] listener that follows the report to the
    backend: slide 9 starts the carousel, every other slide stops it; every
    slide but 10 pauses the music. *)
Definition slidechanged (indexh : Z) (p : Page) : Page :=
  {| carousel := if indexh =? 9 then initCarousel (carousel p)
                 else stopCarousel (carousel p);
     music := if negb (indexh =? 10) then pauseMusicPlayer (music p)
              else music p;
     video := video p |}.

(** The [slidechanged] listener as a whole, on the display and the page:
    the report to the backend, then the carousel and the music. *)
Definition slidechanged_listener (dp : Presenter.Display * Page)
  : Presenter.Display * Page :=
  (Presenter.slidechanged (fst dp),
   slidechanged (Presenter.indexh (Presenter.deck (fst dp))) (snd dp)).

Inductive PageEvent : Type :=
| SlideChanged (indexh : Z)
| CarouselTick (id : nat)
| DotClick (i : nat)
| MusicClick
| MusicEnded
| MusicPlayRejected
| VideoClick
| VideoEnded.

Definition page_handle (p : Page) (ev : PageEvent) : Page :=
  match ev with
  | SlideChanged i => slidechanged i p
  | CarouselTick id => mkPage (carousel_tick id (carousel p)) (music p) (video p)
  | DotClick i => mkPage (dot_click i (carousel p)) (music p) (video p)
  | MusicClick => mkPage (carousel p) (music_click (music p)) (video p)
  | MusicEnded => mkPage (carousel p) (music_ended (music p)) (video p)
  | MusicPlayRejected => mkPage (carousel p) (music_play_rejected (music p)) (video p)
  | VideoClick => mkPage (carousel p) (music p) (video_click (video p))
  | VideoEnded => mkPage (carousel p) (music p) (video_ended (video p))
  end.

Definition page_deliver (evs : list PageEvent) (p : Page) : Page :=
  fold_left page_handle evs p.

(** The interval running is the one [carouselTimer] names, and no
    other. *)
Definition one_interval (c : Carousel) : Prop :=
  intervals c = match carouselTimer c with
                | Some id => [id]
                | None => []
                end.

(** While the music plays the button says Pause and the visualiser moves. *)
Definition music_shown_playing (m : Music) : Prop :=
  musicAudio m = Some false ->
  musicBtn m = label_pause /\ visualiser m <> Some false.

(** The page as loaded, with [n] carousel items and as many dots. *)
Definition loaded_page (n : nat) : Page :=
  {| carousel := mkCarousel (repeat false n) (repeat false n) false 0 None [] 1;
     music := mkMusic None label_as_loaded (Some false);
     video := mkVideo true label_as_loaded |}.

End Media.

(** ** The audience question form: notions for further properties *)

Module AskMore.
Import Ask.

(** A reply other than a response with [ok]. *)
Definition failed (r : Reply) : bool :=
  match r with
  | response_ok => false
  | fetch_rejects _ | response_not_ok _ | response_not_ok_other _
  | json_rejects _ => true
  end.

(** A string with a first and a last code unit, neither of them white
    space. *)
Definition tidy (s : jsstring) : Prop :=
  s <> []
  /\ (forall u t, s = u :: t -> is_white_space u = false)
  /\ (forall t u, s = t ++ [u] -> is_white_space u = false).

End AskMore.

(* ===================================================================== *)
(** * Part II: theorems *)
(* ===================================================================== *)

(** ** The command queue *)

Module QueueFacts.
Import Queue.

Section Engine.

Variable Machine : Type.
Variable run_command : Command -> Machine -> Machine.
Variable stores : Command -> option Command -> option Command.
Variable interrupt : Command -> Engine Machine -> Engine Machine.

Abbreviation process_next := (process_next Machine run_command stores).
Abbreviation on_action_complete := (on_action_complete Machine run_command stores).
Abbreviation enqueue := (enqueue Machine run_command stores interrupt).
Abbreviation step := (step Machine run_command stores interrupt).
Abbreviation run := (run Machine run_command stores interrupt).

Lemma in_flight_app (l : list Event) (ev : Event) :
  in_flight (l ++ [ev]) = in_flight_step (in_flight l) ev.
Proof. unfold in_flight. now rewrite fold_left_app. Qed.

Lemma started_app (l1 l2 : list Event) :
  started (l1 ++ l2) = started l1 ++ started l2.
Proof.
  induction l1 as [|[c|] l1 IH]; simpl; auto. now rewrite IH.
Qed.

Lemma arrivals_app (i1 i2 : list Input) :
  arrivals (i1 ++ i2) = arrivals i1 ++ arrivals i2.
Proof.
  induction i1 as [|[c|] i1 IH]; simpl; auto. now rewrite IH.
Qed.

Lemma arrivals_completions (n : nat) : arrivals (repeat ActionComplete n) = [].
Proof. induction n; simpl; auto. Qed.

Lemma run_app (i1 i2 : list Input) (e : Engine Machine) :
  run (i1 ++ i2) e = run i2 (run i1 e).
Proof. unfold Queue.run. apply fold_left_app. Qed.

(** One input keeps the queue settled. *)
Lemma step_settled (e : Engine Machine) (i : Input) :
  normal_input i -> settled e -> settled (step e i).
Proof.
  unfold settled. destruct e as [[q cur b] m l]. destruct i as [c|]; simpl.
  - intros Hn. unfold normal in Hn. unfold Queue.enqueue. simpl.
    rewrite Hn. simpl. destruct b; simpl; auto.
    intros [-> Hl]. simpl. rewrite in_flight_app, Hl. simpl. eauto.
  - intros _. unfold Queue.on_action_complete, Queue.process_next. simpl.
    destruct b.
    + intros [c Hl]. destruct q as [|c' q']; simpl.
      * split; auto. rewrite in_flight_app, Hl. reflexivity.
      * rewrite !in_flight_app, Hl. simpl. eauto.
    + intros [-> Hl]. simpl. split; auto. rewrite in_flight_app, Hl.
      reflexivity.
Qed.

(** One input extends "started, then pending" by what arrived. *)
Lemma step_order (e : Engine Machine) (i : Input) :
  normal_input i -> settled e ->
  started (log (step e i)) ++ queue (cq (step e i))
  = (started (log e) ++ queue (cq e)) ++ arrivals [i].
Proof.
  unfold settled. destruct e as [[q cur b] m l]. destruct i as [c|]; simpl.
  - intros Hn. unfold normal in Hn. unfold Queue.enqueue. simpl.
    rewrite Hn. simpl. destruct b; simpl.
    + intros _. now rewrite app_assoc.
    + intros [-> _]. simpl. rewrite started_app. simpl.
      now rewrite !app_nil_r.
  - intros _ _. unfold Queue.on_action_complete, Queue.process_next. simpl.
    rewrite app_nil_r. destruct q as [|c' q']; simpl.
    + now rewrite started_app, !app_nil_r.
    + rewrite !started_app. simpl. rewrite app_nil_r.
      now rewrite <- app_assoc.
Qed.

Lemma run_settled (ins : list Input) (e : Engine Machine) :
  Forall normal_input ins -> settled e ->
  settled (run ins e)
  /\ started (log (run ins e)) ++ queue (cq (run ins e))
     = (started (log e) ++ queue (cq e)) ++ arrivals ins.
Proof.
  intros Hn. revert e. induction Hn as [|i ins Hi Hins IH]; intros e He.
  - simpl. now rewrite app_nil_r.
  - change (run (i :: ins) e) with (run ins (step e i)).
    destruct (IH (step e i) (step_settled e i Hi He)) as [Hs Ho].
    split; auto. rewrite Ho, (step_order e i Hi He).
    rewrite <- app_assoc. f_equal.
    destruct i; reflexivity.
Qed.

Lemma initial_settled (m : Machine) : settled (initial m).
Proof. unfold settled. simpl. auto. Qed.

Lemma settled_in_flight (e : Engine Machine) :
  settled e -> (length (in_flight (log e)) <= 1)%nat.
Proof.
  unfold settled. destruct (is_busy (cq e)).
  - intros [c ->]. simpl. lia.
  - intros [_ ->]. simpl. lia.
Qed.

Lemma settled_busy (e : Engine Machine) :
  settled e -> (is_busy (cq e) = true <-> in_flight (log e) <> []).
Proof.
  unfold settled. destruct (is_busy (cq e)).
  - intros [c ->]. split; [discriminate | reflexivity].
  - intros [_ ->]. split; [discriminate | intros H; now elim H].
Qed.

(** A completion takes the head off the FIFO. *)
Lemma complete_queue (e : Engine Machine) :
  queue (cq (on_action_complete e)) = tl (queue (cq e)).
Proof.
  unfold Queue.on_action_complete, Queue.process_next. simpl.
  destruct (queue (cq e)); reflexivity.
Qed.

Lemma completions_queue (n : nat) (e : Engine Machine) :
  queue (cq (run (repeat ActionComplete n) e)) = skipn n (queue (cq e)).
Proof.
  revert e. induction n as [|n IH]; intros e; [reflexivity|].
  change (run (repeat ActionComplete (S n)) e)
    with (run (repeat ActionComplete n) (on_action_complete e)).
  rewrite IH, complete_queue. destruct (queue (cq e)); simpl; auto.
  now rewrite skipn_nil.
Qed.

Lemma normal_completions (n : nat) : Forall normal_input (repeat ActionComplete n).
Proof. induction n; simpl; constructor; simpl; auto. Qed.

Lemma normal_firstn (k : nat) (ins : list Input) :
  Forall normal_input ins -> Forall normal_input (firstn k ins).
Proof.
  intros H. rewrite Forall_forall in *. intros x Hx. apply H.
  rewrite <- (firstn_skipn k ins). apply in_or_app. now left.
Qed.

(** C1. Normal commands submitted through [enqueue] are handed over for
    execution in the order in which they arrived: at every moment the
    commands started so far, followed by the pending ones, are the arrivals
    in order. After every prefix of the inputs at most one command is in
    flight. Once as many completions have come in as commands are pending,
    every command that arrived has been started. *)
Theorem normal_commands_run_in_arrival_order
  (ins : list Input) (m : Machine) :
  Forall normal_input ins ->
  started (log (run ins (initial m))) ++ queue (cq (run ins (initial m)))
  = arrivals ins
  /\ (forall k : nat,
        (length (in_flight (log (run (firstn k ins) (initial m)))) <= 1)%nat)
  /\ (forall n : nat,
        (length (queue (cq (run ins (initial m)))) <= n)%nat ->
        started (log (run (ins ++ repeat ActionComplete n) (initial m)))
        = arrivals ins).
Proof.
  intros Hn.
  destruct (run_settled ins (initial m) Hn (initial_settled m)) as [Hs Ho].
  split; [exact Ho|]. split.
  - intros k. apply settled_in_flight.
    apply (run_settled (firstn k ins) (initial m)).
    + now apply normal_firstn.
    + apply initial_settled.
  - intros n Hlen.
    assert (Hall : Forall normal_input (ins ++ repeat ActionComplete n)).
    { apply Forall_app. split; [exact Hn | apply normal_completions]. }
    destruct (run_settled _ (initial m) Hall (initial_settled m)) as [_ Ho'].
    rewrite run_app, completions_queue in Ho'.
    rewrite skipn_all2 in Ho' by exact Hlen.
    rewrite app_nil_r in Ho'. rewrite <- run_app in Ho'.
    rewrite Ho'. simpl. rewrite arrivals_app, arrivals_completions.
    now rewrite app_nil_r.
Qed.

(** A completion that finds the FIFO empty clears the busy flag and leaves
    [current_action] as it was. *)
Lemma completion_keeps_current_action (e : Engine Machine) :
  queue (cq e) = [] ->
  cq (on_action_complete e)
  = {| queue := []; current_action := current_action (cq e); is_busy := false |}.
Proof.
  destruct e as [[q cur b] mm l]. simpl. intros ->. reflexivity.
Qed.

(** C2, as amended. In every state reached by normal commands and
    completions the busy flag is set exactly when a command is in flight,
    handed to [execute] and not yet reported complete. A completion clears
    the flag and calls [process_next]: with a command pending, that command
    leaves the FIFO and is the one in flight, the flag set again; with
    nothing pending the queue is idle and nothing is in flight. *)
Theorem busy_iff_in_flight
  (ins : list Input) (m : Machine) :
  Forall normal_input ins ->
  (is_busy (cq (run ins (initial m))) = true
   <-> in_flight (log (run ins (initial m))) <> [])
  /\ (forall c rest,
        queue (cq (run ins (initial m))) = c :: rest ->
        is_busy (cq (on_action_complete (run ins (initial m)))) = true
        /\ queue (cq (on_action_complete (run ins (initial m)))) = rest
        /\ in_flight (log (on_action_complete (run ins (initial m)))) = [c])
  /\ (queue (cq (run ins (initial m))) = [] ->
      is_busy (cq (on_action_complete (run ins (initial m)))) = false
      /\ in_flight (log (on_action_complete (run ins (initial m)))) = []).
Proof.
  intros Hn.
  destruct (run_settled ins (initial m) Hn (initial_settled m)) as [Hs _].
  split; [now apply settled_busy|].
  revert Hs. generalize (run ins (initial m)) as e. intros e Hs.
  pose proof (step_settled e ActionComplete I Hs) as Hs'.
  cbn [Queue.step] in Hs'. unfold settled in Hs, Hs'.
  destruct e as [[q cur b] mm l]. split.
  - intros c rest Hq. simpl in Hq. subst q.
    unfold Queue.on_action_complete, Queue.process_next in *. simpl in *.
    destruct b; [|destruct Hs as [Hs _]; discriminate Hs].
    destruct Hs as [c0 Hl]. repeat split.
    rewrite !in_flight_app, Hl. reflexivity.
  - intros Hq. simpl in Hq. subst q.
    unfold Queue.on_action_complete, Queue.process_next in *. simpl in *.
    split; [reflexivity | apply Hs'].
Qed.

(** Whatever [execute] leaves in [current_action], the invariant of the
    specification breaks within two inputs: either right after the first
    command is taken up (busy, nothing current), or after its completion
    (idle, the command still current). *)
Lemma busy_iff_current_breaks (c : Command) (m : Machine) :
  normal c ->
  ~ busy_iff_current (cq (run [Enqueue c] (initial m)))
  \/ ~ busy_iff_current (cq (run [Enqueue c; ActionComplete] (initial m))).
Proof.
  unfold normal. intros Hc.
  unfold Queue.run, busy_iff_current. simpl.
  unfold Queue.enqueue, Queue.on_action_complete, Queue.process_next. simpl.
  rewrite Hc. simpl.
  destruct (stores c None) as [c'|] eqn:Hst.
  - right. intros [_ H]. discriminate H. congruence.
  - left. intros [H _]. now apply H.
Qed.

End Engine.

(** Witness of C1: the sample run. *)
Lemma normal_commands_run_in_arrival_order_witness :
  Forall normal_input sample_inputs
  /\ (started (log (run unit execute_nothing stores_nothing interrupt_nothing
                      sample_inputs (initial tt)))
      ++ queue (cq (run unit execute_nothing stores_nothing interrupt_nothing
                      sample_inputs (initial tt)))
      = arrivals sample_inputs
      /\ (forall k : nat,
            (length (in_flight (log (run unit execute_nothing stores_nothing
                                       interrupt_nothing
                                       (firstn k sample_inputs) (initial tt))))
             <= 1)%nat)
      /\ (forall n : nat,
            (length (queue (cq (run unit execute_nothing stores_nothing
                                  interrupt_nothing sample_inputs (initial tt))))
             <= n)%nat ->
            started (log (run unit execute_nothing stores_nothing
                            interrupt_nothing
                            (sample_inputs ++ repeat ActionComplete n)
                            (initial tt)))
            = arrivals sample_inputs)).
Proof.
  assert (H : Forall normal_input sample_inputs).
  { repeat constructor. }
  split; [exact H|].
  exact (normal_commands_run_in_arrival_order unit execute_nothing
           stores_nothing interrupt_nothing sample_inputs tt H).
Defined.

(** Counterexample to C2 as stated: after the first command is submitted
    to a fresh queue, the queue is busy and [current_action] is still
    [None]. *)
Lemma busy_without_current :
  ~ busy_iff_current
      (cq (run unit execute_nothing stores_nothing interrupt_nothing
             [Enqueue (next_command 1)] (initial tt))).
Proof.
  unfold busy_iff_current. simpl. intros [H _]. now apply H.
Qed.

(** Witness of C2 as amended: the sample run, after which one command is
    in flight and one is pending. *)
Lemma busy_iff_in_flight_witness :
  Forall normal_input sample_inputs
  /\ (is_busy (cq (run unit execute_nothing stores_nothing interrupt_nothing
                     sample_inputs (initial tt))) = true
      <-> in_flight (log (run unit execute_nothing stores_nothing
                            interrupt_nothing sample_inputs (initial tt)))
          <> []).
Proof.
  assert (H : Forall normal_input sample_inputs).
  { repeat constructor. }
  split; [exact H|].
  exact (proj1 (busy_iff_in_flight unit execute_nothing stores_nothing
                  interrupt_nothing sample_inputs tt H)).
Defined.

(** The sample run: [ask] is started at once, [next] when [ask] completes,
    [qa] waits. *)
Example sample_run_started :
  started (log (run unit execute_nothing stores_nothing interrupt_nothing
                  sample_inputs (initial tt)))
  = [ask_command 1; next_command 2]
  /\ queue (cq (run unit execute_nothing stores_nothing interrupt_nothing
                  sample_inputs (initial tt)))
     = [qa_command 3]
  /\ in_flight (log (run unit execute_nothing stores_nothing interrupt_nothing
                       sample_inputs (initial tt)))
     = [next_command 2].
Proof. repeat split. Qed.

(** [on_action_complete] does not ask whether the completion is that of
    the running command: a second signal for [ask] retires [next], which
    has only just been started, and starts [qa]. *)
Example second_completion_starts_the_next :
  started (log (run unit execute_nothing stores_nothing interrupt_nothing
                  [Enqueue (ask_command 1); Enqueue (next_command 2);
                   Enqueue (qa_command 3); ActionComplete; ActionComplete]
                  (initial tt)))
  = [ask_command 1; next_command 2; qa_command 3].
Proof. reflexivity. Qed.

End QueueFacts.

(** ** The state machine side *)

Module StateMachineFacts.
Import Queue StateMachine.

Section Completion.

Variable run_command : Command -> Machine -> Machine.
Variable stores : Command -> option Command -> option Command.

Abbreviation action_completed := (action_completed run_command stores).
Abbreviation enqueue := (Queue.enqueue Machine run_command stores interrupt).

Lemma set_agentState_slide (s : AgentState) (m : Machine) :
  currentSlide (set_agentState s m) = currentSlide m.
Proof. reflexivity. Qed.

Lemma state_completes_slide (fifo : list Command) (m : Machine) :
  currentSlide (state_completes fifo m) = currentSlide m.
Proof.
  unfold state_completes, route_next_command.
  destruct (agentState m), fifo; reflexivity.
Qed.

(** With an empty FIFO a completion hands nothing over. *)
Lemma completion_on_empty_fifo (e : Engine Machine) :
  queue (cq e) = [] ->
  action_completed e
  = {| cq := {| queue := [];
                current_action := current_action (cq e);
                is_busy := false |};
       machine := state_completes [] (machine e);
       log := log e ++ [Finished] |}.
Proof.
  intros Hq. unfold StateMachine.action_completed, on_action_complete,
    process_next. simpl. rewrite Hq. reflexivity.
Qed.

(** C4. When PRESENTING, RESPONDING or QA_MODE completes and the FIFO is
    empty, the engine is in PRESENTING afterwards, on the same slide, idle,
    with nothing handed over for execution: no slide is advanced without a
    command. On the display the end of the audio does not move the slide
    either. *)
Theorem empty_fifo_stays_presenting
  (e : Engine Machine) (d : Presenter.Display) :
  queue (cq e) = [] ->
  routed (agentState (machine e)) = true ->
  agentState (machine (action_completed e)) = PRESENTING
  /\ currentSlide (machine (action_completed e)) = currentSlide (machine e)
  /\ started (log (action_completed e)) = started (log e)
  /\ is_busy (cq (action_completed e)) = false
  /\ queue (cq (action_completed e)) = []
  /\ Presenter.indexh (Presenter.deck (Presenter.handle d Presenter.AudioEnded))
     = Presenter.indexh (Presenter.deck d).
Proof.
  intros Hq Hr. rewrite (completion_on_empty_fifo e Hq). simpl.
  rewrite state_completes_slide, QueueFacts.started_app. simpl.
  rewrite app_nil_r. repeat split.
  - unfold state_completes, route_next_command.
    destruct (agentState (machine e)); try discriminate Hr; reflexivity.
  - unfold Presenter.audio_ended_listener, Presenter.sendToBackend.
    destruct (Presenter.ws _) as [[| | |]|]; reflexivity.
Qed.

End Completion.

(** Witness of C4: a response has been spoken on slide 3 of 15 and nothing
    is queued. *)
Lemma empty_fifo_stays_presenting_witness :
  queue (cq (mkEngine (mkQueue [] None true) (mkMachine RESPONDING 3 15 None)
               [Started (ask_command 1)])) = []
  /\ routed RESPONDING = true
  /\ agentState
       (machine
          (action_completed (fun _ m => m) stores_nothing
             (mkEngine (mkQueue [] None true) (mkMachine RESPONDING 3 15 None)
                [Started (ask_command 1)])))
     = PRESENTING
  /\ currentSlide
       (machine
          (action_completed (fun _ m => m) stores_nothing
             (mkEngine (mkQueue [] None true) (mkMachine RESPONDING 3 15 None)
                [Started (ask_command 1)])))
     = 3.
Proof.
  pose proof (empty_fifo_stays_presenting (fun _ m => m) stores_nothing
                (mkEngine (mkQueue [] None true)
                   (mkMachine RESPONDING 3 15 None) [Started (ask_command 1)])
                (Presenter.connected_display 3 15) eq_refl eq_refl)
    as (H1 & H2 & _).
  repeat split; assumption.
Defined.

Section Resume.

Variable others : Command -> Machine -> Machine.
Variable stores : Command -> option Command -> option Command.

Abbreviation submit :=
  (Queue.enqueue Machine (execute_command others) stores interrupt).
Abbreviation complete :=
  (Queue.run Machine (execute_command others) stores interrupt).

(** On a busy queue every completion starts the head of the FIFO: after as
    many completions as commands are pending, all of them have been
    started, in their order. *)
Lemma completions_start_the_fifo (e : Engine Machine) :
  started (log (complete (repeat ActionComplete (length (queue (cq e)))) e))
  = started (log e) ++ queue (cq e).
Proof.
  remember (queue (cq e)) as q eqn:Hq. revert e Hq.
  induction q as [|c q IH]; intros e Hq.
  - simpl. now rewrite app_nil_r.
  - change (complete (repeat ActionComplete (length (c :: q))) e)
      with (complete (repeat ActionComplete (length q))
              (on_action_complete Machine (execute_command others) stores e)).
    destruct e as [[q0 cur b] m l]. simpl in Hq. subst q0.
    rewrite IH by reflexivity.
    unfold on_action_complete, process_next, execute. cbn [cq queue log].
    rewrite !QueueFacts.started_app. simpl.
    rewrite app_nil_r, <- app_assoc. reflexivity.
Qed.


End Resume.



End StateMachineFacts.

(** ** The display client *)

Module PresenterFacts.
Import Presenter.

(** *** What the helpers leave alone *)

Lemma sendToBackend_overlays (t : string) (x : Data) (d : Display) :
  overlays (sendToBackend t x d) = overlays d.
Proof. unfold sendToBackend. destruct (ws (conn d)) as [[| | |]|]; reflexivity. Qed.

Lemma sendToBackend_deck (t : string) (x : Data) (d : Display) :
  deck (sendToBackend t x d) = deck d.
Proof. unfold sendToBackend. destruct (ws (conn d)) as [[| | |]|]; reflexivity. Qed.

Lemma sendToBackend_not_open (t : string) (x : Data) (d : Display) :
  ws (conn d) <> Some OPEN -> sendToBackend t x d = d.
Proof.
  unfold sendToBackend. destruct (ws (conn d)) as [[| | |]|]; auto.
  intros H. now elim H.
Qed.

Lemma sendToBackend_open (t : string) (x : Data) (d : Display) :
  ws (conn d) = Some OPEN ->
  sent (conn (sendToBackend t x d)) = sent (conn d) ++ [mkOutgoing t x]
  /\ ws (conn (sendToBackend t x d)) = Some OPEN.
Proof. unfold sendToBackend. intros ->. simpl. auto. Qed.

Lemma Reveal_slide_overlays (h : Z) (d : Display) :
  overlays (Reveal_slide h d) = overlays d.
Proof.
  unfold Reveal_slide, slidechanged.
  destruct (_ =? _); [reflexivity|]. now rewrite sendToBackend_overlays.
Qed.

Lemma Reveal_slide_indexh (h : Z) (d : Display) :
  indexh (deck (Reveal_slide h d)) = Z.max (Z.min h (total (deck d) - 1)) 0.
Proof.
  unfold Reveal_slide, slidechanged.
  destruct (_ =? _) eqn:E.
  - apply Z.eqb_eq in E. now rewrite E.
  - now rewrite sendToBackend_deck.
Qed.

Lemma connect_overlays (d : Display) : overlays (connect d) = overlays d.
Proof. unfold connect. destruct (ws (conn d)) as [[| | |]|]; reflexivity. Qed.

Lemma setAvatarMode_overlays (m : string) (d : Display) :
  overlays (setAvatarMode m d) = overlays d.
Proof. reflexivity. Qed.

(** *** Overlays *)

Lemma showQuestion_exclusive (n : option string) (q : string) (d : Display) :
  overlays_exclusive (showQuestion n q d).
Proof. right. reflexivity. Qed.

Lemma showResponseText_exclusive (t : string) (d : Display) :
  overlays_exclusive (showResponseText t d).
Proof. left. reflexivity. Qed.

Lemma hideOverlays_exclusive (d : Display) :
  overlays_exclusive (hideOverlays d).
Proof. left. reflexivity. Qed.

Lemma same_overlays_exclusive (d d' : Display) :
  overlays d' = overlays d -> overlays_exclusive d -> overlays_exclusive d'.
Proof. unfold overlays_exclusive. now intros ->. Qed.

Lemma handleMessage_exclusive (now : Z) (msg : Msg) (d : Display) :
  overlays_exclusive d -> overlays_exclusive (fst (handleMessage now msg d)).
Proof.
  intros H. destruct msg; simpl; auto.
  - (* advance_slide *)
    apply (same_overlays_exclusive d); auto. apply Reveal_slide_overlays.
  - (* goto_slide *)
    apply (same_overlays_exclusive d); auto.
    unfold gotoSlideAndRevealFragments. simpl. apply Reveal_slide_overlays.
  - (* play_audio *)
    destruct audioUrl; simpl; left; reflexivity.
  - (* play_live_audio *)
    destruct audioData; simpl;
      unfold playLiveAudio, playLiveAudio_throws;
      destruct (truthy responseText0); left; reflexivity.
  - (* stream_audio_start *)
    unfold startStreamingAudio. destruct (truthy responseText0);
      left; reflexivity.
  - (* audio_chunk *)
    apply (same_overlays_exclusive d); auto.
    unfold handleAudioChunk, assembleAndPlayStream.
    destruct (isStreaming (stream d)); simpl; auto.
    destruct final; simpl.
    + destruct (streamBuffer (stream d)); simpl; auto.
      now rewrite sendToBackend_overlays.
    + destruct chunk; reflexivity.
  - (* show_question *) apply showQuestion_exclusive.
  - (* show_response_text *) apply showResponseText_exclusive.
  - (* pause *) left. reflexivity.
Qed.

Lemma handle_exclusive (d : Display) (ev : BrowserEvent) :
  overlays_exclusive d -> overlays_exclusive (handle d ev).
Proof.
  intros H. destruct ev; simpl.
  - (* WsOpen *)
    apply (same_overlays_exclusive d); auto.
    unfold onopen, clearTimeout. simpl.
    destruct (reconnectTimer (conn d)); reflexivity.
  - (* WsMessage *)
    destruct parsed; simpl; auto. now apply handleMessage_exclusive.
  - (* WsClose *) exact H.
  - (* WsError *) exact H.
  - (* TimerFires *)
    apply (same_overlays_exclusive d); auto.
    unfold fire_timer. destruct (find _ _) as [[i [[|] z]]|]; simpl; auto.
    now rewrite connect_overlays.
  - (* AudioEnded *)
    unfold audio_ended_listener. left. now rewrite sendToBackend_overlays.
  - (* AudioError *)
    apply (same_overlays_exclusive d); auto.
    unfold audio_error_listener. now rewrite sendToBackend_overlays.
  - (* PlayRejected *)
    apply (same_overlays_exclusive d); auto.
    destruct call; simpl; now rewrite sendToBackend_overlays.
  - (* Heartbeat *)
    apply (same_overlays_exclusive d); auto. apply sendToBackend_overlays.
Qed.

(** C9. Whatever the browser delivers to the client, messages of the
    backend, socket and timer events, audio events, the two overlays are
    never visible together, provided they were not to begin with; and
    [showQuestion], [showResponseText], [hideOverlays] and the three
    functions that start audio each leave at most one overlay visible from
    whatever state they start. *)
Theorem overlays_never_both_visible (evs : list BrowserEvent) (d : Display) :
  overlays_exclusive d ->
  overlays_exclusive (deliver evs d)
  /\ (forall n q d', overlays_exclusive (showQuestion n q d'))
  /\ (forall t d', overlays_exclusive (showResponseText t d'))
  /\ (forall d', overlays_exclusive (hideOverlays d'))
  /\ (forall now u d', overlays_exclusive (playPreGenAudio now u d'))
  /\ (forall b t d', overlays_exclusive (playLiveAudio b t d'))
  /\ (forall t d', overlays_exclusive (startStreamingAudio t d')).
Proof.
  intros H. split.
  - revert d H. induction evs as [|ev evs IH]; intros d H; simpl; auto.
    apply IH. now apply handle_exclusive.
  - repeat split; intros.
    + apply showQuestion_exclusive.
    + apply showResponseText_exclusive.
    + apply hideOverlays_exclusive.
    + left. reflexivity.
    + unfold playLiveAudio. destruct (truthy t); left; reflexivity.
    + unfold startStreamingAudio. destruct (truthy t); left; reflexivity.
Qed.

(** *** Slides *)

(** C5, as amended. A [goto_slide] message with 0 <= N < total puts the
    display on slide N exactly. The handler has no range check and raises
    nothing: it hands N to [Reveal.slide], so that an index outside the
    deck ends on the nearest slide of the deck. *)
Theorem goto_slide_sets_or_clamps (now N : Z) (d : Display) :
  snd (handleMessage now (goto_slide (Some N)) d) = Returned
  /\ indexh (deck (fst (handleMessage now (goto_slide (Some N)) d)))
     = Z.max (Z.min N (total (deck d) - 1)) 0
  /\ (0 <= N < total (deck d) ->
      indexh (deck (fst (handleMessage now (goto_slide (Some N)) d))) = N).
Proof.
  assert (E : indexh (deck (fst (handleMessage now (goto_slide (Some N)) d)))
              = Z.max (Z.min N (total (deck d) - 1)) 0).
  { simpl. unfold gotoSlideAndRevealFragments. simpl.
    rewrite Reveal_slide_indexh. destruct N; reflexivity. }
  split; [reflexivity|]. split; [exact E|].
  intros HN. rewrite E. lia.
Qed.

(** *** Status *)

(** A [status] message, handled any number of times in any state of the
    display, changes nothing: the slide, the overlays, the audio and the
    socket are as before, and nothing is sent to the backend. Status
    messages anywhere in the course of events leave the outcome of the
    other events as it is. *)
Lemma status_message_changes_nothing
  (n : nat) (now : Z) (data : list (string * string)) (d : Display) :
  handleMessage now (status data) d = (d, Returned)
  /\ deliver (repeat (WsMessage now (Some (status data))) n) d = d
  /\ (forall before after : list BrowserEvent,
        deliver (before ++ repeat (WsMessage now (Some (status data))) n ++ after) d
        = deliver (before ++ after) d).
Proof.
  assert (H : forall d', deliver (repeat (WsMessage now (Some (status data))) n) d' = d').
  { intros d'. induction n as [|k IH]; simpl; auto. }
  split; [reflexivity|]. split; [apply H|].
  intros before after. unfold deliver in *.
  now rewrite !fold_left_app, H.
Qed.

(** *** Reconnection *)

Lemma find_fresh_timer (id : nat) (x : Timer * Z) (l : list (nat * (Timer * Z))) :
  Forall (fun t => (fst t < id)%nat) l ->
  find (fun t => Nat.eqb (fst t) id) (l ++ [(id, x)]) = Some (id, x).
Proof.
  induction 1 as [|[i y] l Hi Hl IH]; simpl.
  - now rewrite Nat.eqb_refl.
  - simpl in Hi. destruct (Nat.eqb_spec i id); [lia | exact IH].
Qed.

(** C8, as amended. After a disconnect the client schedules [connect] in
    RECONNECT_DELAY milliseconds; when that timeout fires a new socket is
    made; when the socket opens the client sends nothing, and so no status
    request. While the socket is not open [sendToBackend] drops what it is
    given. *)
Theorem reconnect_sends_nothing (d : Display) :
  timers_fresh d ->
  In (next_timer (conn d), (ReconnectTimer, 3000))
     (timers (conn (handle d WsClose)))
  /\ reconnectTimer (conn (handle d WsClose)) = Some (next_timer (conn d))
  /\ ws (conn (deliver [WsClose; TimerFires (next_timer (conn d))] d))
     = Some CONNECTING
  /\ ws (conn (deliver [WsClose; TimerFires (next_timer (conn d)); WsOpen] d))
     = Some OPEN
  /\ sent (conn (deliver [WsClose; TimerFires (next_timer (conn d)); WsOpen] d))
     = sent (conn d)
  /\ (forall t x,
        sendToBackend t x (handle d WsClose) = handle d WsClose
        /\ sendToBackend t x
             (deliver [WsClose; TimerFires (next_timer (conn d))] d)
           = deliver [WsClose; TimerFires (next_timer (conn d))] d).
Proof.
  unfold timers_fresh. intros Hf.
  assert (E2 : deliver [WsClose; TimerFires (next_timer (conn d))] d
               = with_conn
                   (mkConn (Some CONNECTING) (Some (next_timer (conn d)))
                      (remove_timer (next_timer (conn d))
                         (timers (conn d)
                          ++ [(next_timer (conn d), (ReconnectTimer, 3000))]))
                      (S (next_timer (conn d))) (sent (conn d))) d).
  { unfold deliver. simpl. unfold fire_timer, onclose. simpl.
    rewrite (find_fresh_timer _ _ _ Hf). reflexivity. }
  split.
  { simpl. apply in_or_app. right. now left. }
  split; [reflexivity|].
  split; [now rewrite E2|].
  change (deliver [WsClose; TimerFires (next_timer (conn d)); WsOpen] d)
    with (handle (deliver [WsClose; TimerFires (next_timer (conn d))] d) WsOpen).
  rewrite E2. repeat split.
Qed.

(** *** Completion signals *)

(** One audio event, one signal, on an open socket. *)
Lemma one_event_one_signal (d : Display) :
  ws (conn d) = Some OPEN ->
  sent (conn (handle d AudioEnded))
  = sent (conn d) ++ [mkOutgoing "audio_ended" no_fields]
  /\ sent (conn (handle d AudioError))
     = sent (conn d) ++ [mkOutgoing "audio_ended" (error_field "load_error")]
  /\ (forall b, sent (conn (handle d (PlayRejected (pre_gen b))))
                = sent (conn d)
                  ++ [mkOutgoing "audio_ended" (error_field "play_failed")]).
Proof.
  intros Hw. cbn [handle]. unfold audio_ended_listener, audio_error_listener.
  repeat split; intros; cbn [play_rejected].
  - now apply (sendToBackend_open _ _
                 (hideOverlays (setAvatarMode "idle" (playback_over d)))).
  - now apply (sendToBackend_open _ _ (playback_over d)).
  - now apply (sendToBackend_open _ _ (playback_over d)).
Qed.

(** Signals per playback on an open socket: one when the audio plays to
    its end or is refused, two when its source fails to load. *)
Lemma signals_per_playback (call : PlayCall) (p : Playback) (d : Display) :
  ws (conn d) = Some OPEN ->
  length (completion_signals (sent (conn (deliver (playback_events call p) d))))
  = (length (completion_signals (sent (conn d)))
     + match p with
       | plays_to_end | play_refused => 1
       | source_fails => 2
       end)%nat.
Proof.
  intros Hw. unfold completion_signals.
  destruct d as [[w rt tm nt st] k a v o s]. simpl in Hw. subst w.
  destruct p, call; simpl; rewrite ?filter_app, ?length_app; simpl; lia.
Qed.

(** C3 fails on the client. A [play_audio] message names a file that is
    missing. The audio element reports the failed load with an [error]
    event and rejects the promise of [play()]; the [error] listener and the
    catch handler of [playPreGenAudio] each send [audio_ended]: two
    completion signals for one command. *)
Theorem missing_audio_file_signals_twice :
  completion_signals
    (sent (conn (deliver [WsMessage 1767225600000
                        (Some (play_audio (Some "/audio/slide_03.mp3") true));
                      AudioError;
                      PlayRejected (pre_gen true)]
                   (connected_display 3 15))))
  = [mkOutgoing "audio_ended" (error_field "load_error");
     mkOutgoing "audio_ended" (error_field "play_failed")].
Proof. reflexivity. Qed.

(** The cache-busting parameter is joined by [?], or by [&] when the URL
    has a query already. *)
Example cache_busted_urls :
  src (audio (playPreGenAudio 1767225600000 "/audio/slide_03.mp3"
                (connected_display 3 15)))
  = url_src "/audio/slide_03.mp3?v=1767225600000"
  /\ src (audio (playPreGenAudio 1767225600000 "/audio/intro.mp3?lang=en"
                   (connected_display 3 15)))
     = url_src "/audio/intro.mp3?lang=en&v=1767225600000".
Proof. split; reflexivity. Qed.

(** A stream of two chunks is played as one blob once the final chunk
    message arrives; an empty stream is reported complete at once. *)
Example streamed_audio :
  src (audio (deliver [WsMessage 0 (Some (stream_audio_start (Some "Hello")));
                   WsMessage 1 (Some (audio_chunk false (Some [Byte.x61; Byte.x62])));
                   WsMessage 2 (Some (audio_chunk false (Some [Byte.x63])));
                   WsMessage 3 (Some (audio_chunk true None))]
                (connected_display 3 15)))
  = blob_src [Byte.x61; Byte.x62; Byte.x63]
  /\ sent (conn (deliver [WsMessage 0 (Some (stream_audio_start None));
                      WsMessage 1 (Some (audio_chunk true None))]
                   (connected_display 3 15)))
     = [mkOutgoing "audio_ended" no_fields].
Proof. split; reflexivity. Qed.

(** *** Counterexamples and witnesses *)

(** Counterexample to C5 as stated: on a deck of 15 slides, showing slide
    3, [goto_slide] with index 20 raises nothing and moves the display to
    slide 14. *)
Lemma goto_out_of_range_moves_the_slide :
  snd (handleMessage 0 (goto_slide (Some 20)) (connected_display 3 15))
  = Returned
  /\ indexh (deck (fst (handleMessage 0 (goto_slide (Some 20))
                          (connected_display 3 15)))) = 14
  /\ indexh (deck (connected_display 3 15)) = 3.
Proof. repeat split. Qed.

(** Witness of C5 as amended: slide 7 of 15. *)
Lemma goto_slide_sets_or_clamps_witness :
  0 <= 7 < total (deck (connected_display 3 15))
  /\ indexh (deck (fst (handleMessage 0 (goto_slide (Some 7))
                          (connected_display 3 15)))) = 7.
Proof.
  assert (H : 0 <= 7 < total (deck (connected_display 3 15))).
  { simpl. lia. }
  split; [exact H|].
  exact (proj2 (proj2 (goto_slide_sets_or_clamps 0 7 (connected_display 3 15))) H).
Defined.

(** Counterexample to C8 as stated: the socket closes, the reconnect timer
    fires, the new socket opens and a [goto_slide] message arrives. The
    client follows the message, and has sent no status request; all it has
    sent is the report of the slide change. *)
Lemma reconnect_requests_no_status :
  ws (conn (deliver [WsClose; TimerFires 0; WsOpen;
                 WsMessage 0 (Some (goto_slide (Some 5)))]
              (connected_display 3 15))) = Some OPEN
  /\ indexh (deck (deliver [WsClose; TimerFires 0; WsOpen;
                        WsMessage 0 (Some (goto_slide (Some 5)))]
                     (connected_display 3 15))) = 5
  /\ status_requests
       (sent (conn (deliver [WsClose; TimerFires 0; WsOpen;
                         WsMessage 0 (Some (goto_slide (Some 5)))]
                      (connected_display 3 15)))) = []
  /\ sent (conn (deliver [WsClose; TimerFires 0; WsOpen;
                      WsMessage 0 (Some (goto_slide (Some 5)))]
                   (connected_display 3 15)))
     = [mkOutgoing "slide_changed" (slideIndex_field 5)].
Proof. repeat split. Qed.

(** Witness of C8 as amended: a connected display with no timeout
    pending. *)
Lemma reconnect_sends_nothing_witness :
  timers_fresh (connected_display 3 15)
  /\ ws (conn (deliver [WsClose; TimerFires 0; WsOpen] (connected_display 3 15)))
     = Some OPEN
  /\ sent (conn (deliver [WsClose; TimerFires 0; WsOpen] (connected_display 3 15)))
     = [].
Proof.
  assert (H : timers_fresh (connected_display 3 15)).
  { constructor. }
  split; [exact H|].
  pose proof (reconnect_sends_nothing (connected_display 3 15) H)
    as (_ & _ & _ & H4 & H5 & _).
  split; [exact H4 | exact H5].
Defined.

(** Witness of C9: a question is shown, then a streamed answer starts. *)
Lemma overlays_never_both_visible_witness :
  overlays_exclusive (connected_display 3 15)
  /\ overlays_exclusive
       (deliver [WsMessage 0 (Some (show_question (Some "Maria") "What tools do you use?"));
             WsMessage 1 (Some (stream_audio_start (Some "Thanks, Maria.")))]
          (connected_display 3 15)).
Proof.
  assert (H : overlays_exclusive (connected_display 3 15)).
  { left. reflexivity. }
  split; [exact H|].
  exact (proj1 (overlays_never_both_visible
                  [WsMessage 0 (Some (show_question (Some "Maria") "What tools do you use?"));
                   WsMessage 1 (Some (stream_audio_start (Some "Thanks, Maria.")))]
                  (connected_display 3 15) H)).
Defined.

End PresenterFacts.

(** ** The audience question form *)

Module AskFacts.
Import Ask.

(** *** Trimming *)

Example trim_ascii : trim (of_string "  Why?  ") = of_string "Why?".
Proof. reflexivity. Qed.

(** No-break space, ideographic space and line separator are stripped
    too; white space inside stays. *)
Example trim_unicode :
  trim [0xA0; 0x3000; 0x41; 0x20; 0x42; 0x2028]%N = [0x41; 0x20; 0x42]%N.
Proof. reflexivity. Qed.

Lemma trim_start_blank (s : jsstring) :
  trim_start s = [] <-> blank s = true.
Proof.
  unfold blank. induction s as [|u s IH]; simpl.
  - tauto.
  - destruct (is_white_space u); simpl; [exact IH|].
    split; discriminate.
Qed.

Lemma blank_app (s t : jsstring) : blank (s ++ t) = blank s && blank t.
Proof. unfold blank. apply forallb_app. Qed.

Lemma blank_rev (s : jsstring) : blank (rev s) = blank s.
Proof.
  induction s as [|u s IH]; simpl; auto.
  rewrite blank_app, IH. unfold blank. simpl.
  rewrite andb_true_r. apply andb_comm.
Qed.

(** What [trim_start] strips is white space, and what it leaves does not
    begin with white space. *)
Lemma trim_start_split (s : jsstring) :
  exists pre, s = pre ++ trim_start s /\ blank pre = true
              /\ match trim_start s with
                 | [] => True
                 | u :: _ => is_white_space u = false
                 end.
Proof.
  induction s as [|u s (pre & E & B & H)]; simpl.
  - exists []. auto.
  - destruct (is_white_space u) eqn:W.
    + exists (u :: pre). simpl. rewrite <- E. unfold blank in *. simpl.
      rewrite W, B. auto.
    + exists []. auto.
Qed.

(** [trim] gives the empty string exactly on strings of white space. *)
Lemma trim_blank (s : jsstring) : trim s = [] <-> blank s = true.
Proof.
  unfold trim. split.
  - intros H.
    assert (H1 : trim_start (rev (trim_start s)) = []).
    { destruct (trim_start (rev (trim_start s))) as [|n l]; auto.
      simpl in H. apply app_eq_nil in H. destruct H as [_ H].
      discriminate H. }
    apply trim_start_blank in H1. rewrite blank_rev in H1.
    destruct (trim_start_split s) as (pre & E & B & Hh).
    destruct (trim_start s) as [|u t] eqn:T.
    + now apply trim_start_blank.
    + unfold blank in H1. simpl in H1. rewrite Hh in H1. discriminate.
  - intros H. apply trim_start_blank in H. rewrite H. reflexivity.
Qed.

(** [trim] takes white space off both ends and nothing else. *)
Lemma trim_split (s : jsstring) :
  exists pre post, s = pre ++ trim s ++ post
                   /\ blank pre = true /\ blank post = true.
Proof.
  unfold trim.
  destruct (trim_start_split s) as (pre & E & B & _).
  destruct (trim_start_split (rev (trim_start s))) as (q & E' & B' & _).
  exists pre, (rev q). split; [|split].
  - rewrite E at 1. f_equal.
    rewrite <- (rev_involutive (trim_start s)) at 1. rewrite E' at 1.
    apply rev_app_distr.
  - exact B.
  - now rewrite blank_rev.
Qed.

Lemma trim_not_blank (s : jsstring) :
  blank s = false -> exists u t, trim s = u :: t.
Proof.
  intros H. destruct (trim s) as [|u t] eqn:T.
  - apply trim_blank in T. congruence.
  - eauto.
Qed.

(** *** Submission *)

(** C10. When the question is empty after trimming, the listener makes no
    request and shows the error message: the error element reads "Please
    enter a question." and is displayed; every other part of the form is as
    before. Otherwise it makes exactly one request, a POST to
    /api/questions/submit carrying the trimmed question, with [null] for the
    name when the name field is blank and the trimmed name otherwise,
    whatever the reply turns out to be. *)
Theorem submit_sends_one_post_or_none (r : Reply) (f : Form) :
  (blank (questionInput_value f) = true ->
   snd (on_submit r f) = []
   /\ fst (on_submit r f) = showError (of_string "Please enter a question.") f
   /\ errorMessage_textContent (fst (on_submit r f))
      = of_string "Please enter a question."
   /\ errorMessage_display (fst (on_submit r f)) = block
   /\ charCount_textContent (fst (on_submit r f)) = charCount_textContent f
   /\ nameInput_value (fst (on_submit r f)) = nameInput_value f
   /\ questionInput_value (fst (on_submit r f)) = questionInput_value f
   /\ submitBtn_disabled (fst (on_submit r f)) = submitBtn_disabled f
   /\ submitBtn_textContent (fst (on_submit r f)) = submitBtn_textContent f
   /\ form_display (fst (on_submit r f)) = form_display f
   /\ successMessage_display (fst (on_submit r f)) = successMessage_display f)
  /\ (blank (questionInput_value f) = false ->
      exists req : Request,
        snd (on_submit r f) = [req]
        /\ url req = "/api/questions/submit"
        /\ method req = "POST"
        /\ question (body req) = trim (questionInput_value f)
        /\ (blank (nameInput_value f) = true -> name (body req) = None)
        /\ (blank (nameInput_value f) = false ->
            name (body req) = Some (trim (nameInput_value f)))).
Proof.
  split.
  - intros H. apply trim_blank in H. unfold on_submit. rewrite H. simpl.
    repeat split.
  - intros H. destruct (trim_not_blank _ H) as (u & t & T).
    unfold on_submit. rewrite T. simpl.
    eexists. split; [reflexivity|]. simpl. repeat split.
    + intros Hn. apply trim_blank in Hn. now rewrite Hn.
    + intros Hn. destruct (trim_not_blank _ Hn) as (u' & t' & T').
      now rewrite T'.
Qed.

(** Witness of C10: a form submitted with nothing but spaces in the
    question, and one with a question and a blank name. *)
Lemma submit_sends_one_post_or_none_witness :
  blank (questionInput_value (fresh_form "Ana" "   ")) = true
  /\ snd (on_submit response_ok (fresh_form "Ana" "   ")) = []
  /\ errorMessage_textContent (fst (on_submit response_ok (fresh_form "Ana" "   ")))
     = of_string "Please enter a question."
  /\ errorMessage_display (fst (on_submit response_ok (fresh_form "Ana" "   ")))
     = block
  /\ blank (questionInput_value (fresh_form "  " " Why? ")) = false
  /\ blank (nameInput_value (fresh_form "  " " Why? ")) = true
  /\ exists req : Request,
       snd (on_submit response_ok (fresh_form "  " " Why? ")) = [req]
       /\ question (body req) = of_string "Why?"
       /\ name (body req) = None.
Proof.
  split; [reflexivity|].
  destruct (proj1 (submit_sends_one_post_or_none response_ok
                     (fresh_form "Ana" "   ")) eq_refl)
    as (B1 & _ & B3 & B4 & _).
  split; [exact B1|]. split; [exact B3|]. split; [exact B4|].
  split; [reflexivity|]. split; [reflexivity|].
  destruct (proj2 (submit_sends_one_post_or_none response_ok
                     (fresh_form "  " " Why? ")) eq_refl)
    as (req & H1 & _ & _ & H4 & H5 & _).
  exists req. split; [exact H1|]. split; [exact H4 | exact (H5 eq_refl)].
Defined.

(** The error element before and after a blank submission. *)
Example blank_submission_shows_the_message :
  errorMessage_textContent (fresh_form "Ana" "   ") = []
  /\ errorMessage_display (fresh_form "Ana" "   ") = as_loaded
  /\ fst (on_submit response_ok (fresh_form "Ana" "   "))
     = {| nameInput_value := of_string "Ana";
          questionInput_value := of_string "   ";
          submitBtn_disabled := false;
          submitBtn_textContent := of_string "Submit Question";
          charCount_textContent := 0%N;
          form_display := as_loaded;
          successMessage_display := as_loaded;
          errorMessage_textContent := of_string "Please enter a question.";
          errorMessage_display := block |}.
Proof. repeat split. Qed.

End AskFacts.
(** ** The command queue: further properties *)

Module QueueMoreFacts.
Import Queue QueueMore.

Section Engine.

Variable Machine : Type.
Variable run_command : Command -> Machine -> Machine.
Variable stores : Command -> option Command -> option Command.
Variable interrupt : Command -> Engine Machine -> Engine Machine.

Abbreviation on_action_complete := (on_action_complete Machine run_command stores).
Abbreviation enqueue := (enqueue Machine run_command stores interrupt).
Abbreviation step := (step Machine run_command stores interrupt).
Abbreviation run := (run Machine run_command stores interrupt).

(** A command that is not an interrupt on a busy queue: it is appended and
    nothing else happens. *)
Lemma enqueue_busy (c : Command) (e : Engine Machine) :
  queued c -> is_busy (cq e) = true ->
  enqueue c e
  = {| cq := {| queue := queue (cq e) ++ [c];
                current_action := current_action (cq e);
                is_busy := true |};
       machine := machine e;
       log := log e |}.
Proof.
  unfold queued. intros Hc Hb. unfold Queue.enqueue.
  destruct (Z.eqb_spec (priority c) 1) as [E|_]; [contradiction|].
  simpl. rewrite Hb. reflexivity.
Qed.

(** The same on an idle queue with nothing pending: the command is handed
    over at once. *)
Lemma enqueue_idle (c : Command) (e : Engine Machine) :
  queued c -> is_busy (cq e) = false -> queue (cq e) = [] ->
  enqueue c e
  = {| cq := {| queue := [];
                current_action := stores c (current_action (cq e));
                is_busy := true |};
       machine := run_command c (machine e);
       log := log e ++ [Started c] |}.
Proof.
  unfold queued. intros Hc Hb Hq. unfold Queue.enqueue.
  destruct (Z.eqb_spec (priority c) 1) as [E|_]; [contradiction|].
  simpl. rewrite Hb. simpl. unfold process_next. simpl. rewrite Hq.
  reflexivity.
Qed.

Lemma step_settled_queued (e : Engine Machine) (i : Input) :
  queued_input i -> settled e -> settled (step e i).
Proof.
  destruct i as [c|]; simpl.
  - intros Hc Hs. unfold settled in Hs.
    destruct (is_busy (cq e)) eqn:Hb.
    + rewrite (enqueue_busy c e Hc Hb). unfold settled. simpl. exact Hs.
    + destruct Hs as [Hq Hl]. rewrite (enqueue_idle c e Hc Hb Hq).
      unfold settled. simpl. rewrite QueueFacts.in_flight_app, Hl. simpl. eauto.
  - intros _. apply (QueueFacts.step_settled _ _ _ interrupt e ActionComplete I).
Qed.

Lemma step_order_queued (e : Engine Machine) (i : Input) :
  queued_input i -> settled e ->
  started (log (step e i)) ++ queue (cq (step e i))
  = (started (log e) ++ queue (cq e)) ++ arrivals [i].
Proof.
  destruct i as [c|]; simpl.
  - intros Hc Hs. unfold settled in Hs.
    destruct (is_busy (cq e)) eqn:Hb.
    + rewrite (enqueue_busy c e Hc Hb). simpl. now rewrite app_assoc.
    + destruct Hs as [Hq Hl]. rewrite (enqueue_idle c e Hc Hb Hq). simpl.
      rewrite Hq, QueueFacts.started_app. simpl. now rewrite !app_nil_r.
  - intros _ Hs.
    apply (QueueFacts.step_order _ _ _ interrupt e ActionComplete I Hs).
Qed.

Lemma run_settled_queued (ins : list Input) (e : Engine Machine) :
  Forall queued_input ins -> settled e ->
  settled (run ins e)
  /\ started (log (run ins e)) ++ queue (cq (run ins e))
     = (started (log e) ++ queue (cq e)) ++ arrivals ins.
Proof.
  intros Hn. revert e. induction Hn as [|i ins Hi Hins IH]; intros e He.
  - simpl. now rewrite app_nil_r.
  - change (run (i :: ins) e) with (run ins (step e i)).
    destruct (IH (step e i) (step_settled_queued e i Hi He)) as [Hs Ho].
    split; auto. rewrite Ho, (step_order_queued e i Hi He).
    rewrite <- app_assoc. f_equal. destruct i; reflexivity.
Qed.

(** X1. Only priority 1 is an interrupt. Commands of any other priority,
    2 or -1 as well as 0, wait in the FIFO: they are started in the order
    of their arrival, and never more than one is in flight. *)
Theorem every_priority_but_one_is_queued (ins : list Input) (m : Machine) :
  Forall queued_input ins ->
  started (log (run ins (initial m))) ++ queue (cq (run ins (initial m)))
  = arrivals ins
  /\ (length (in_flight (log (run ins (initial m)))) <= 1)%nat.
Proof.
  intros H.
  destruct (run_settled_queued ins (initial m) H (QueueFacts.initial_settled _ m))
    as [Hs Ho].
  split; [exact Ho|]. now apply QueueFacts.settled_in_flight.
Qed.

(** X2. The queue never sits idle on pending work: in every state reached
    by queued commands and completions, a cleared busy flag means an empty
    FIFO, and when the FIFO is not empty a command is in flight. *)
Theorem idle_means_nothing_pending (ins : list Input) (m : Machine) :
  Forall queued_input ins ->
  (is_busy (cq (run ins (initial m))) = false ->
   queue (cq (run ins (initial m))) = [])
  /\ (queue (cq (run ins (initial m))) <> [] ->
      exists c, in_flight (log (run ins (initial m))) = [c]).
Proof.
  intros H.
  destruct (run_settled_queued ins (initial m) H (QueueFacts.initial_settled _ m))
    as [Hs _].
  unfold settled in Hs. destruct (is_busy (cq (run ins (initial m)))).
  - split; [discriminate | intros _; exact Hs].
  - destruct Hs as [Hq _]. split; [auto | intros Hn; now elim Hn].
Qed.

(** Commands arriving at a busy queue pile up behind the running one. *)
Lemma enqueue_all_busy (cs : list Command) (e : Engine Machine) :
  Forall queued cs -> is_busy (cq e) = true ->
  run (map Enqueue cs) e
  = {| cq := {| queue := queue (cq e) ++ cs;
                current_action := current_action (cq e);
                is_busy := true |};
       machine := machine e;
       log := log e |}.
Proof.
  intros H. revert e. induction H as [|c cs Hc Hcs IH]; intros e Hb.
  - simpl. rewrite app_nil_r. destruct e as [[q cur b] mm l].
    simpl in Hb. now subst b.
  - change (run (map Enqueue (c :: cs)) e)
      with (run (map Enqueue cs) (enqueue c e)).
    rewrite (enqueue_busy c e Hc Hb). rewrite IH by reflexivity. simpl.
    now rewrite <- app_assoc.
Qed.

(** X3. When [c :: cs] arrive in a row at a fresh queue, [c] is started at
    once and the others wait; the k-th completion then starts the k-th of
    the waiting commands. After k completions, k no more than the number
    waiting, the commands started are the first [k + 1] arrivals and the
    FIFO holds the rest. *)
Theorem kth_completion_starts_kth_waiting
  (c : Command) (cs : list Command) (k : nat) (m : Machine) :
  Forall queued (c :: cs) ->
  (k <= length cs)%nat ->
  started (log (run (map Enqueue (c :: cs) ++ repeat ActionComplete k) (initial m)))
  = c :: firstn k cs
  /\ queue (cq (run (map Enqueue (c :: cs) ++ repeat ActionComplete k) (initial m)))
     = skipn k cs.
Proof.
  intros H Hk.
  assert (Hin : Forall queued_input
                  (map Enqueue (c :: cs) ++ repeat ActionComplete k)).
  { apply Forall_app. split.
    - rewrite Forall_map. exact H.
    - clear. induction k; simpl; constructor; simpl; auto. }
  destruct (run_settled_queued _ (initial m) Hin (QueueFacts.initial_settled _ m))
    as [_ Ho].
  assert (Hq : queue (cq (run (map Enqueue (c :: cs) ++ repeat ActionComplete k)
                            (initial m))) = skipn k cs).
  { rewrite QueueFacts.run_app, QueueFacts.completions_queue.
    change (run (map Enqueue (c :: cs)) (initial m))
      with (run (map Enqueue cs) (enqueue c (initial m))).
    inversion H as [|? ? Hc Hcs]; subst.
    rewrite (enqueue_idle c (initial m) Hc eq_refl eq_refl).
    rewrite enqueue_all_busy by (auto; reflexivity). reflexivity. }
  split; [|exact Hq].
  assert (Ha : arrivals (map Enqueue (c :: cs)) = c :: cs).
  { clear. generalize (c :: cs). intros l. induction l; simpl; congruence. }
  rewrite Hq, QueueFacts.arrivals_app, QueueFacts.arrivals_completions,
    app_nil_r, Ha in Ho.
  cbn [initial log cq queue empty_queue started app] in Ho.
  apply (app_inv_tail (skipn k cs)).
  rewrite Ho. simpl. now rewrite firstn_skipn, app_nil_r.
Qed.

(** X4. A completion signal that reaches an idle queue starts nothing and
    leaves the queue as it is: in a state reached by queued commands and
    completions where the busy flag is cleared, any number of further
    completions change neither the FIFO, nor the flag, nor what has been
    started. *)
Theorem completions_on_idle_queue_start_nothing
  (ins : list Input) (n : nat) (m : Machine) :
  Forall queued_input ins ->
  is_busy (cq (run ins (initial m))) = false ->
  cq (run (ins ++ repeat ActionComplete n) (initial m)) = cq (run ins (initial m))
  /\ started (log (run (ins ++ repeat ActionComplete n) (initial m)))
     = started (log (run ins (initial m))).
Proof.
  intros H Hb.
  destruct (run_settled_queued ins (initial m) H (QueueFacts.initial_settled _ m))
    as [Hs _].
  rewrite QueueFacts.run_app.
  revert Hs Hb. generalize (run ins (initial m)) as e.
  induction n as [|n IH]; intros e Hs Hb; [split; reflexivity|].
  change (run (repeat ActionComplete (S n)) e)
    with (run (repeat ActionComplete n) (on_action_complete e)).
  unfold settled in Hs. rewrite Hb in Hs. destruct Hs as [Hq Hl].
  assert (E : on_action_complete e
              = {| cq := cq e; machine := machine e; log := log e ++ [Finished] |}).
  { destruct e as [[q cur b] mm l]. simpl in *. subst. reflexivity. }
  destruct (IH (on_action_complete e)) as [H1 H2].
  - rewrite E. unfold settled. simpl. rewrite Hb. split; auto.
    rewrite QueueFacts.in_flight_app, Hl. reflexivity.
  - rewrite E. exact Hb.
  - rewrite H1, H2, E. simpl. rewrite QueueFacts.started_app. simpl.
    now rewrite app_nil_r.
Qed.

End Engine.

(** Witness of X1: an urgent command, a lazy one and a normal one. *)
Lemma every_priority_but_one_is_queued_witness :
  Forall queued_input
    [Enqueue (urgent_command 1); Enqueue (lazy_command 2); ActionComplete;
     Enqueue (next_command 3)]
  /\ started (log (run unit execute_nothing stores_nothing interrupt_nothing
                     [Enqueue (urgent_command 1); Enqueue (lazy_command 2);
                      ActionComplete; Enqueue (next_command 3)] (initial tt)))
     ++ queue (cq (run unit execute_nothing stores_nothing interrupt_nothing
                     [Enqueue (urgent_command 1); Enqueue (lazy_command 2);
                      ActionComplete; Enqueue (next_command 3)] (initial tt)))
     = [urgent_command 1; lazy_command 2; next_command 3].
Proof.
  assert (H : Forall queued_input
                [Enqueue (urgent_command 1); Enqueue (lazy_command 2);
                 ActionComplete; Enqueue (next_command 3)]).
  { repeat constructor; discriminate. }
  split; [exact H|].
  exact (proj1 (every_priority_but_one_is_queued unit execute_nothing
                  stores_nothing interrupt_nothing _ tt H)).
Defined.

(** Witness of X2: after the sample run the FIFO is not empty and [next]
    is in flight. *)
Lemma idle_means_nothing_pending_witness :
  Forall queued_input sample_inputs
  /\ exists c, in_flight (log (run unit execute_nothing stores_nothing
                                 interrupt_nothing sample_inputs (initial tt)))
               = [c].
Proof.
  assert (H : Forall queued_input sample_inputs).
  { repeat constructor; discriminate. }
  split; [exact H|].
  apply (proj2 (idle_means_nothing_pending unit execute_nothing stores_nothing
                  interrupt_nothing sample_inputs tt H)).
  discriminate.
Defined.

(** Witness of X3: three commands and one completion. *)
Lemma kth_completion_starts_kth_waiting_witness :
  Forall queued [ask_command 1; next_command 2; qa_command 3]
  /\ (1 <= length [next_command 2; qa_command 3])%nat
  /\ started (log (run unit execute_nothing stores_nothing interrupt_nothing
                     (map Enqueue [ask_command 1; next_command 2; qa_command 3]
                      ++ repeat ActionComplete 1) (initial tt)))
     = [ask_command 1; next_command 2].
Proof.
  assert (H : Forall queued [ask_command 1; next_command 2; qa_command 3]).
  { repeat constructor; discriminate. }
  assert (K : (1 <= length [next_command 2; qa_command 3])%nat).
  { simpl. lia. }
  split; [exact H|]. split; [exact K|].
  exact (proj1 (kth_completion_starts_kth_waiting unit execute_nothing
                  stores_nothing interrupt_nothing (ask_command 1)
                  [next_command 2; qa_command 3] 1 tt H K)).
Defined.

(** Witness of X4: one command, completed, and two more signals. *)
Lemma completions_on_idle_queue_start_nothing_witness :
  Forall queued_input [Enqueue (next_command 1); ActionComplete]
  /\ is_busy (cq (run unit execute_nothing stores_nothing interrupt_nothing
                    [Enqueue (next_command 1); ActionComplete] (initial tt)))
     = false
  /\ started (log (run unit execute_nothing stores_nothing interrupt_nothing
                     ([Enqueue (next_command 1); ActionComplete]
                      ++ repeat ActionComplete 2) (initial tt)))
     = [next_command 1].
Proof.
  assert (H : Forall queued_input [Enqueue (next_command 1); ActionComplete]).
  { repeat constructor; discriminate. }
  split; [exact H|]. split; [reflexivity|].
  exact (proj2 (completions_on_idle_queue_start_nothing unit execute_nothing
                  stores_nothing interrupt_nothing
                  [Enqueue (next_command 1); ActionComplete] 2 tt H eq_refl)).
Defined.

End QueueMoreFacts.

(** ** The display client: further properties *)

Module PresenterMoreFacts.
Import Presenter PresenterMore.

Ltac open_display d :=
  destruct d as [[w rt tm nt st] [ih tot rev] [sr pa] [av ex]
                   [qh rh qt qx rx] [sb isst srt]].

Ltac unfold_client_once :=
  cbv beta iota zeta delta
    [handle onmessage handleMessage onopen onclose onerror fire_timer
     connect sendToBackend setTimeout clearTimeout set_readyState
     showQuestion showResponseText hideOverlays setAvatarMode slidechanged
     Reveal_slide Reveal_next gotoSlideAndRevealFragments reveal_fragments
     load_and_play playPreGenAudio playLiveAudio playLiveAudio_throws
     startStreamingAudio assembleAndPlayStream handleAudioChunk stopAudio
     pauseAll play_rejected audio_error_listener audio_ended_listener
     playback_over
     with_conn with_deck with_audio with_avatar with_overlays with_stream
     conn deck audio avatar overlays stream
     ws reconnectTimer timers next_timer sent indexh total revealed
     src paused avatarEl expanded question_hidden response_hidden
     questionTarget questionText responseText streamBuffer isStreaming
     streamResponseText];
  cbn [fst snd negb].

Ltac unfold_client := repeat progress unfold_client_once.

Ltac split_case :=
  match goal with
  | |- context [find ?f ?l] => destruct (find f l) as [[? [[|] ?]]|] eqn:?
  | |- context [match ?x with _ => _ end] =>
      lazymatch x with
      | context [match _ with _ => _ end] => fail
      | _ => destruct x eqn:?
      end
  end.

Ltac split_cases := repeat (split_case; unfold_client).

(** Every event makes the client send at most one message. *)
Lemma handle_sends_at_most_one (d : Display) (ev : BrowserEvent) :
  sent (conn (handle d ev)) = sent (conn d)
  \/ exists o, sent (conn (handle d ev)) = sent (conn d) ++ [o].
Proof.
  open_display d. destruct ev as [|now [msg|]| | |id| | |call|];
    try destruct msg; unfold_client; split_cases;
    try (left; reflexivity); right; eexists; reflexivity.
Qed.

(** X5. The client never takes back or reorders what it has sent: after any
    events the messages sent before are a prefix of the messages sent, and
    each event adds at most one message. *)
Theorem sent_only_grows (evs : list BrowserEvent) (d : Display) :
  exists more : list Outgoing,
    sent (conn (deliver evs d)) = sent (conn d) ++ more
    /\ (length more <= length evs)%nat.
Proof.
  revert d. induction evs as [|ev evs IH]; intros d.
  - exists []. simpl. now rewrite app_nil_r.
  - destruct (IH (handle d ev)) as (more & E & L).
    change (deliver (ev :: evs) d) with (deliver evs (handle d ev)).
    destruct (handle_sends_at_most_one d ev) as [H | [o H]].
    + exists more. rewrite E, H. simpl. split; [reflexivity | lia].
    + exists (o :: more). rewrite E, H, <- app_assoc. simpl.
      split; [reflexivity | lia].
Qed.

(** Without an open socket an event other than [open] sends nothing and
    does not open the socket. *)
Lemma handle_offline (d : Display) (ev : BrowserEvent) :
  is_open ev = false -> ws (conn d) <> Some OPEN ->
  sent (conn (handle d ev)) = sent (conn d)
  /\ ws (conn (handle d ev)) <> Some OPEN.
Proof.
  open_display d. unfold is_open.
  destruct ev as [|now [msg|]| | |id| | |call|]; try discriminate;
    intros _; try destruct msg; unfold_client; intros Hw; split_cases;
    subst; try (now elim Hw); split; try reflexivity; try assumption;
    discriminate.
Qed.

(** X6. While the socket is not open everything the client would report is
    lost: whatever events come in before the next [open], audio that ends,
    heartbeats, slide changes, nothing is sent, and nothing is kept to be
    sent later. *)
Theorem offline_reports_are_lost (evs : list BrowserEvent) (d : Display) :
  ws (conn d) <> Some OPEN ->
  forallb (fun ev => negb (is_open ev)) evs = true ->
  sent (conn (deliver evs d)) = sent (conn d)
  /\ sent (conn (deliver (evs ++ [WsOpen]) d)) = sent (conn d).
Proof.
  revert d. induction evs as [|ev evs IH]; intros d Hw Hev.
  - split; [reflexivity|]. open_display d. unfold deliver. simpl.
    unfold_client. now destruct rt.
  - simpl in Hev. apply andb_true_iff in Hev. destruct Hev as [He Hev].
    apply negb_true_iff in He.
    destruct (handle_offline d ev He Hw) as [Hs Hw'].
    change (deliver (ev :: evs) d) with (deliver evs (handle d ev)).
    change (deliver ((ev :: evs) ++ [WsOpen]) d)
      with (deliver (evs ++ [WsOpen]) (handle d ev)).
    destruct (IH (handle d ev) Hw' Hev) as [H1 H2].
    now rewrite H1, H2.
Qed.

(** The same invariant under one event. *)
Lemma handle_avatar_consistent (d : Display) (ev : BrowserEvent) :
  avatar_consistent d -> avatar_consistent (handle d ev).
Proof.
  unfold avatar_consistent. open_display d.
  destruct ev as [|now [msg|]| | |id| | |call|];
    try destruct msg; unfold_client; intros H; split_cases;
    try exact H; split; intros E; try discriminate E; reflexivity.
Qed.

(** X7. The avatar container is expanded exactly while the avatar is in its
    live-speaking mode: every call of [setAvatarMode] leaves the two classes
    in step, whatever the mode string, and no event of the client puts them
    out of step. *)
Theorem expanded_goes_with_speaking_live
  (evs : list BrowserEvent) (mode : string) (d : Display) :
  avatar_consistent (setAvatarMode mode d)
  /\ (avatar_consistent d -> avatar_consistent (deliver evs d)).
Proof.
  split.
  - unfold avatar_consistent, setAvatarMode. simpl.
    repeat match goal with
           | |- context [if ?b then _ else _] => destruct b
           end; simpl; split; intros E; try discriminate E; reflexivity.
  - revert d. induction evs as [|ev evs IH]; intros d H; simpl; auto.
    apply IH. now apply handle_avatar_consistent.
Qed.

(** *** Timeouts *)

Lemma fresh_timer_Forall (n : nat) (x : Timer * Z) (l : list (nat * (Timer * Z))) :
  Forall (fun t => (fst t < n)%nat) l ->
  Forall (fun t => (fst t < S n)%nat) (l ++ [(n, x)]).
Proof.
  intros H. apply Forall_app. split.
  - eapply Forall_impl; [|exact H]. simpl. intros; lia.
  - constructor; [simpl; lia | constructor].
Qed.

Lemma remove_fresh_timer (n : nat) (x : Timer * Z) (l : list (nat * (Timer * Z))) :
  Forall (fun t => (fst t < n)%nat) l ->
  remove_timer n (l ++ [(n, x)]) = l.
Proof.
  unfold remove_timer. intros H. rewrite filter_app. simpl.
  rewrite Nat.eqb_refl. simpl. rewrite app_nil_r.
  induction H as [|[i y] l Hi Hl IH]; simpl; auto.
  simpl in Hi. destruct (Nat.eqb_spec i n); [lia|]. simpl. now rewrite IH.
Qed.

(** *** Slides and fragments *)

(** What a [goto_slide] message leaves behind: the deck on the slide asked
    for, and one more timeout pending. *)
Lemma goto_effect (now h : Z) (d : Display) :
  deck (handle d (WsMessage now (Some (goto_slide (Some h)))))
  = mkDeck (clamp h d) (total (deck d)) (revealed (deck d))
  /\ timers (conn (handle d (WsMessage now (Some (goto_slide (Some h))))))
     = timers (conn d) ++ [(next_timer (conn d), (RevealTimer, 100))]
  /\ next_timer (conn (handle d (WsMessage now (Some (goto_slide (Some h))))))
     = S (next_timer (conn d)).
Proof.
  assert (Hg : match h with 0 => 0 | _ => h end = h) by now destruct h.
  unfold clamp. open_display d. unfold_client. rewrite Hg.
  split_cases; repeat split;
    match goal with
    | H : (_ =? _) = true |- _ => apply Z.eqb_eq in H; now rewrite H
    end.
Qed.

Lemma find_timer_after_fresh (n : nat) (x : Timer * Z)
    (l rest : list (nat * (Timer * Z))) :
  Forall (fun t => (fst t < n)%nat) l ->
  find (fun t => Nat.eqb (fst t) n) (l ++ (n, x) :: rest) = Some (n, x).
Proof.
  induction 1 as [|[i y] l Hi Hl IH]; simpl.
  - now rewrite Nat.eqb_refl.
  - simpl in Hi. destruct (Nat.eqb_spec i n); [lia | exact IH].
Qed.

(** What the firing of a reveal timeout does. *)
Lemma fire_reveal_effect (n : nat) (z : Z) (l rest : list (nat * (Timer * Z)))
    (d : Display) :
  timers (conn d) = l ++ (n, (RevealTimer, z)) :: rest ->
  Forall (fun t => (fst t < n)%nat) l ->
  deck (handle d (TimerFires n))
  = mkDeck (indexh (deck d)) (total (deck d)) (indexh (deck d) :: revealed (deck d))
  /\ timers (conn (handle d (TimerFires n))) = remove_timer n (timers (conn d))
  /\ next_timer (conn (handle d (TimerFires n))) = next_timer (conn d).
Proof.
  intros Ht Hf. cbn [handle]. unfold fire_timer.
  rewrite Ht, (find_timer_after_fresh n _ l rest Hf). repeat split.
Qed.

Lemma remove_first_of_two (n : nat) (x y : Timer * Z) (l : list (nat * (Timer * Z))) :
  Forall (fun t => (fst t < n)%nat) l ->
  remove_timer n ((l ++ [(n, x)]) ++ [(S n, y)]) = l ++ [(S n, y)].
Proof.
  intros H. unfold remove_timer. rewrite filter_app.
  change (filter _ (l ++ [(n, x)])) with (remove_timer n (l ++ [(n, x)])).
  rewrite (remove_fresh_timer n x l H). cbn [filter fst].
  destruct (Nat.eqb_spec (S n) n); [lia | reflexivity].
Qed.

(** X9. After a [goto_slide] message and the timeout it sets, the display
    is on the slide asked for, brought into the deck, the fragments of that
    slide are marked visible, and no timeout is left over. The timeout
    reveals the slide current when it fires: of two messages in a row both
    timeouts reveal the second slide, and the fragments of the first stay as
    they were. *)
Theorem goto_reveals_fragments (now a b : Z) (d : Display) :
  timers_fresh d ->
  deck (deliver [WsMessage now (Some (goto_slide (Some a)));
                 TimerFires (next_timer (conn d))] d)
  = mkDeck (clamp a d) (total (deck d)) (clamp a d :: revealed (deck d))
  /\ timers (conn (deliver [WsMessage now (Some (goto_slide (Some a)));
                            TimerFires (next_timer (conn d))] d))
     = timers (conn d)
  /\ deck (deliver [WsMessage now (Some (goto_slide (Some a)));
                    WsMessage now (Some (goto_slide (Some b)));
                    TimerFires (next_timer (conn d));
                    TimerFires (S (next_timer (conn d)))] d)
     = mkDeck (clamp b d) (total (deck d))
         (clamp b d :: clamp b d :: revealed (deck d)).
Proof.
  unfold timers_fresh. intros Hf.
  set (n := next_timer (conn d)).
  set (ga := WsMessage now (Some (goto_slide (Some a)))).
  set (gb := WsMessage now (Some (goto_slide (Some b)))).
  destruct (goto_effect now a d) as (Da & Ta & Na). fold ga n in Da, Ta, Na.
  split; [|split].
  - change (deliver [ga; TimerFires n] d) with (handle (handle d ga) (TimerFires n)).
    destruct (fire_reveal_effect n 100 (timers (conn d)) [] (handle d ga) Ta Hf)
      as (D & _ & _).
    rewrite D, Da. reflexivity.
  - change (deliver [ga; TimerFires n] d) with (handle (handle d ga) (TimerFires n)).
    destruct (fire_reveal_effect n 100 (timers (conn d)) [] (handle d ga) Ta Hf)
      as (_ & T & _).
    rewrite T, Ta. now apply remove_fresh_timer.
  - change (deliver [ga; gb; TimerFires n; TimerFires (S n)] d)
      with (handle (handle (handle (handle d ga) gb) (TimerFires n))
              (TimerFires (S n))).
    destruct (goto_effect now b (handle d ga)) as (Db & Tb & Nb). fold gb in Db, Tb, Nb.
    rewrite Ta, Na in Tb. rewrite Na in Nb.
    assert (Tb' : timers (conn (handle (handle d ga) gb))
                  = timers (conn d) ++ (n, (RevealTimer, 100)) :: [(S n, (RevealTimer, 100))]).
    { rewrite Tb, <- app_assoc. reflexivity. }
    destruct (fire_reveal_effect n 100 (timers (conn d)) [(S n, (RevealTimer, 100))]
                (handle (handle d ga) gb) Tb' Hf) as (D1 & T1 & N1).
    rewrite Tb, (remove_first_of_two n _ _ _ Hf) in T1.
    assert (Hf' : Forall (fun t => (fst t < S n)%nat) (timers (conn d))).
    { eapply Forall_impl; [|exact Hf]. simpl. intros; lia. }
    destruct (fire_reveal_effect (S n) 100 (timers (conn d)) []
                (handle (handle (handle d ga) gb) (TimerFires n)) T1 Hf')
      as (D2 & _ & _).
    rewrite D2, D1, Db. unfold clamp. rewrite Da. reflexivity.
Qed.

(** *** Streamed audio *)

Lemma deliver_app (e1 e2 : list BrowserEvent) (d : Display) :
  deliver (e1 ++ e2) d = deliver e2 (deliver e1 d).
Proof. unfold deliver. apply fold_left_app. Qed.

(** While a stream is open every chunk is put at the end of the buffer. *)
Lemma chunks_are_buffered (now : Z) (chunks : list (list Byte.byte)) (d : Display) :
  isStreaming (stream d) = true ->
  deliver (chunk_messages now chunks) d
  = with_stream (mkStream (streamBuffer (stream d) ++ chunks) true
                   (streamResponseText (stream d))) d.
Proof.
  revert d. induction chunks as [|c chunks IH]; intros d Hs.
  - open_display d. simpl in Hs. subst. simpl. now rewrite app_nil_r.
  - change (deliver (chunk_messages now (c :: chunks)) d)
      with (deliver (chunk_messages now chunks)
              (handle d (WsMessage now (Some (audio_chunk false (Some c)))))).
    rewrite IH.
    + open_display d. simpl in Hs. subst. unfold_client. cbn [negb].
      now rewrite <- app_assoc.
    + open_display d. simpl in Hs. subst. reflexivity.
Qed.

(** Outside a stream chunk messages, final or not, change nothing. *)
Lemma chunks_outside_a_stream (now : Z) (msgs : list (bool * option (list Byte.byte)))
    (d : Display) :
  isStreaming (stream d) = false ->
  deliver (map (fun m => WsMessage now (Some (audio_chunk (fst m) (snd m)))) msgs) d
  = d.
Proof.
  intros Hs. induction msgs as [|[f c] msgs IH]; [reflexivity|].
  cbn [map deliver fold_left handle onmessage handleMessage fst snd].
  unfold handleAudioChunk. rewrite Hs. exact IH.
Qed.

(** X10. A stream is played as one piece: after the start message, the
    chunk messages and the final message, the player holds the chunks joined
    in the order of their arrival and plays them, the buffer is empty again
    and the stream closed, and no completion signal has been sent. A stream
    without chunks plays nothing and is reported complete at once. Chunk
    messages that come after the final one are ignored. *)
Theorem stream_is_played_in_order
  (now : Z) (text : option string) (chunks : list (list Byte.byte))
  (late : list (bool * option (list Byte.byte))) (d : Display) :
  isStreaming (stream (deliver (stream_messages now text chunks) d)) = false
  /\ streamBuffer (stream (deliver (stream_messages now text chunks) d)) = []
  /\ (chunks <> [] ->
      audio (deliver (stream_messages now text chunks) d)
      = mkAudio (blob_src (concat chunks)) false
      /\ sent (conn (deliver (stream_messages now text chunks) d)) = sent (conn d))
  /\ (chunks = [] ->
      audio (deliver (stream_messages now text chunks) d) = audio d
      /\ sent (conn (deliver (stream_messages now text chunks) d))
         = sent (conn (sendToBackend "audio_ended" no_fields d)))
  /\ deliver (stream_messages now text chunks
              ++ map (fun m => WsMessage now (Some (audio_chunk (fst m) (snd m)))) late)
       d
     = deliver (stream_messages now text chunks) d.
Proof.
  assert (E : deliver (stream_messages now text chunks) d
              = handle
                  (with_stream
                     (mkStream chunks true
                        (streamResponseText (stream (startStreamingAudio text d))))
                     (startStreamingAudio text d))
                  (WsMessage now (Some (audio_chunk true None)))).
  { unfold stream_messages.
    change (deliver (?a :: ?l ++ ?f) d) with (deliver (l ++ f) (handle d a)).
    rewrite deliver_app, chunks_are_buffered.
    - cbn [deliver fold_left]. f_equal.
      open_display d. unfold_client. split_cases; reflexivity.
    - open_display d. unfold_client. split_cases; reflexivity. }
  assert (S1 : isStreaming (stream (deliver (stream_messages now text chunks) d))
               = false).
  { rewrite E. open_display d. unfold_client. split_cases; reflexivity. }
  split; [exact S1|]. split; [|split; [|split]].
  - rewrite E. open_display d. unfold_client. split_cases; reflexivity.
  - intros Hc. rewrite E. destruct chunks as [|c chunks]; [now elim Hc|].
    open_display d. unfold_client. split_cases; split; reflexivity.
  - intros ->. rewrite E.
    open_display d. unfold_client. split_cases; split; reflexivity.
  - rewrite deliver_app. now apply chunks_outside_a_stream.
Qed.

(** Witness of X10: two chunks. *)
Lemma stream_is_played_in_order_witness :
  [[Byte.x49; Byte.x44]; [Byte.x33]] <> []
  /\ audio (deliver (stream_messages 0 (Some "Thanks, Maria.")
                       [[Byte.x49; Byte.x44]; [Byte.x33]])
              (connected_display 3 15))
     = mkAudio (blob_src [Byte.x49; Byte.x44; Byte.x33]) false.
Proof.
  assert (H : [[Byte.x49; Byte.x44]; [Byte.x33]] <> []) by discriminate.
  split; [exact H|].
  exact (proj1 (proj1 (proj2 (proj2 (stream_is_played_in_order 0
                  (Some "Thanks, Maria.") [[Byte.x49; Byte.x44]; [Byte.x33]] []
                  (connected_display 3 15)))) H)).
Defined.

(** Witness of X9: a connected display with nothing pending. *)
Lemma goto_reveals_fragments_witness :
  timers_fresh (connected_display 3 15)
  /\ deck (deliver [WsMessage 0 (Some (goto_slide (Some 7))); TimerFires 0]
             (connected_display 3 15))
     = mkDeck 7 15 [7].
Proof.
  assert (H : timers_fresh (connected_display 3 15)) by constructor.
  split; [exact H|].
  exact (proj1 (goto_reveals_fragments 0 7 7 (connected_display 3 15) H)).
Defined.

(** Witness of X6: the socket has closed; the audio ends and a heartbeat
    is due before the socket opens again. *)
Lemma offline_reports_are_lost_witness :
  ws (conn (handle (connected_display 3 15) WsClose)) <> Some OPEN
  /\ sent (conn (deliver ([AudioEnded; Heartbeat; TimerFires 0] ++ [WsOpen])
                   (handle (connected_display 3 15) WsClose)))
     = [].
Proof.
  assert (H : ws (conn (handle (connected_display 3 15) WsClose)) <> Some OPEN)
    by discriminate.
  split; [exact H|].
  exact (proj2 (offline_reports_are_lost [AudioEnded; Heartbeat; TimerFires 0]
                  (handle (connected_display 3 15) WsClose) H eq_refl)).
Defined.

(** Witness of X7: a display at rest, then the avatar speaks live. *)
Lemma expanded_goes_with_speaking_live_witness :
  avatar_consistent (connected_display 3 15)
  /\ avatar_consistent
       (deliver [WsMessage 0 (Some (show_avatar "speaking_live")); AudioEnded]
          (connected_display 3 15)).
Proof.
  assert (H : avatar_consistent (connected_display 3 15)).
  { split; discriminate. }
  split; [exact H|].
  exact (proj2 (expanded_goes_with_speaking_live
                  [WsMessage 0 (Some (show_avatar "speaking_live")); AudioEnded]
                  "idle" (connected_display 3 15)) H).
Defined.

End PresenterMoreFacts.

(** ** The earlier display client and the avatar module *)

Module PresenterV1Facts.
Import Presenter.

(** X11. The earlier client signals the end of a playback exactly once on
    an open socket, however the playback turns out: it has no listener for
    the [error] event, so a source that fails to load is reported by the
    catch handler alone. *)
Theorem v1_signals_once (call : PlayCall) (p : Playback) (d : Display) :
  ws (conn d) = Some OPEN ->
  exists o : Outgoing,
    sent (conn (PresenterV1.deliver (playback_events call p) d))
    = sent (conn d) ++ [o]
    /\ out_type o = "audio_ended".
Proof.
  intros Hw. destruct d as [[w rt tm nt st] k a v o s]. simpl in Hw. subst w.
  destruct p; eexists; split; reflexivity.
Qed.

Lemma v1_signals_once_witness :
  ws (conn (connected_display 3 15)) = Some OPEN
  /\ exists o : Outgoing,
       sent (conn (PresenterV1.deliver (playback_events (pre_gen true) source_fails)
                     (connected_display 3 15)))
       = sent (conn (connected_display 3 15)) ++ [o]
       /\ out_type o = "audio_ended".
Proof.
  split; [reflexivity|].
  exact (v1_signals_once (pre_gen true) source_fails (connected_display 3 15)
           eq_refl).
Defined.

End PresenterV1Facts.

Module AvatarJsFacts.
Import AvatarJs.

Lemma replace_without_underscore (s : string) :
  has_underscore s = false -> replace_underscore s = s.
Proof.
  unfold has_underscore. induction s as [|c s IH]; simpl; auto.
  destruct (Ascii.eqb c "_"); simpl; [discriminate|].
  intros H. now rewrite IH.
Qed.

Lemma replace_first_underscore (a b : string) :
  has_underscore a = false ->
  replace_underscore (a ++ String "_" b) = (a ++ String "-" b)%string.
Proof.
  unfold has_underscore. induction a as [|c a IH]; simpl; auto.
  destruct (Ascii.eqb c "_"); simpl; [discriminate|].
  intros H. now rewrite IH.
Qed.

(** X13. For every mode its documentation names, [setMode] of avatar.js
    gives the avatar element the same classes as [setAvatarMode] of
    presenter.js does. [getMode] returns the mode last set, also on a page
    without the element. Only the first underscore of a mode becomes a
    hyphen. *)
Theorem avatar_modules_agree
  (mode a b : string) (s : State) (cls : string) (d : Presenter.Display) :
  (In mode modes ->
   className (setMode mode (mkState (currentMode s) (Some cls)))
   = Some (presenter_className
             (Presenter.avatarEl (Presenter.avatar (Presenter.setAvatarMode mode d)))))
  /\ getMode (setMode mode s) = mode
  /\ (has_underscore a = false ->
      className (setMode (a ++ String "_" b) (mkState (currentMode s) (Some cls)))
      = Some ("avatar avatar-" ++ a ++ String "-" b)%string).
Proof.
  split; [|split].
  - unfold modes. simpl.
    intros [<-|[<-|[<-|[<-|[<-|[]]]]]]; reflexivity.
  - reflexivity.
  - intros H. simpl. now rewrite replace_first_underscore.
Qed.

Lemma avatar_modules_agree_witness :
  In "speaking_live" modes
  /\ className (setMode "speaking_live" (mkState "idle" (Some "avatar avatar-idle")))
     = Some "avatar avatar-speaking-live".
Proof.
  assert (H : In "speaking_live" modes).
  { simpl. auto. }
  split; [exact H|].
  exact (proj1 (avatar_modules_agree "speaking_live" "" ""
                  (mkState "idle" None) "avatar avatar-idle"
                  (Presenter.connected_display 3 15)) H).
Defined.

End AvatarJsFacts.

(** ** The carousel and the music player *)

Module MediaFacts.
Import Media.

Lemma stopCarousel_one_interval (c : Carousel) :
  one_interval c ->
  carouselTimer (stopCarousel c) = None /\ intervals (stopCarousel c) = [].
Proof.
  unfold one_interval, stopCarousel.
  destruct (carouselTimer c) as [id|] eqn:E; simpl.
  - intros ->. simpl. now rewrite Nat.eqb_refl.
  - intros H. split; [exact E | exact H].
Qed.

Lemma carousel_step_one_interval (p : Page) (ev : PageEvent) :
  one_interval (carousel p) -> one_interval (carousel (page_handle p ev)).
Proof.
  intros H. destruct ev; simpl; auto.
  - (* SlideChanged *)
    destruct (indexh =? 9).
    + unfold initCarousel. destruct (items (carousel p)); auto.
      destruct (stopCarousel_one_interval (showCarouselItem 0 (carousel p)) H)
        as [_ Hi].
      unfold one_interval. simpl. now rewrite Hi.
    + destruct (stopCarousel_one_interval (carousel p) H) as [Ht Hi].
      unfold one_interval. now rewrite Ht, Hi.
  - (* CarouselTick *)
    unfold carousel_tick. destruct (existsb _ _); auto.
  - (* DotClick *)
    unfold dot_click. destruct (_ && _); auto.
Qed.

(** X14. The carousel never runs two intervals. From a page on which the
    interval running is the one in [carouselTimer], every slide change,
    tick and click leaves it so; and after a change to any slide but 9 no
    interval is running at all. *)
Theorem carousel_runs_one_interval (evs : list PageEvent) (i : Z) (p : Page) :
  one_interval (carousel p) ->
  one_interval (carousel (page_deliver evs p))
  /\ (length (intervals (carousel (page_deliver evs p))) <= 1)%nat
  /\ (i <> 9 ->
      intervals (carousel (page_deliver (evs ++ [SlideChanged i]) p)) = []
      /\ carouselTimer (carousel (page_deliver (evs ++ [SlideChanged i]) p)) = None).
Proof.
  intros H.
  assert (Hd : one_interval (carousel (page_deliver evs p))).
  { revert p H. induction evs as [|ev evs IH]; intros p H; simpl; auto.
    apply IH. now apply carousel_step_one_interval. }
  split; [exact Hd|]. split.
  - unfold one_interval in Hd. rewrite Hd.
    destruct (carouselTimer _); simpl; lia.
  - intros Hi. unfold page_deliver. rewrite fold_left_app. simpl.
    fold (page_deliver evs p).
    destruct (Z.eqb_spec i 9) as [E|_]; [contradiction|].
    destruct (stopCarousel_one_interval _ Hd). auto.
Qed.

Lemma mark_length (index n : nat) : length (mark index n) = n.
Proof. unfold mark. now rewrite length_map, length_seq. Qed.

Lemma mark_count (index s n : nat) :
  (s <= index < s + n)%nat ->
  length (filter (fun b => b) (map (fun i => Nat.eqb i index) (seq s n))) = 1%nat.
Proof.
  revert s. induction n as [|n IH]; intros s H; [lia|]. simpl.
  destruct (Nat.eqb_spec s index) as [E|E]; simpl.
  - f_equal. subst s. clear. generalize (Nat.lt_succ_diag_r index).
    generalize (S index). intros s Hs. revert s Hs.
    induction n as [|n IH]; intros s Hs; simpl; auto.
    destruct (Nat.eqb_spec s index); [lia|]. apply IH. lia.
  - apply IH. lia.
Qed.

(** The carousel [k] ticks after its start. *)
Lemma ticks_after_start (k : nat) (c : Carousel) :
  one_interval c -> items c <> [] ->
  fold_left (fun c' _ => carousel_tick (next_interval c) c') (repeat tt k)
    (initCarousel c)
  = {| items := mark (k mod length (items c))%nat (length (items c));
       dots := mark (k mod length (items c))%nat (length (dots c));
       dots_wired := true;
       carouselIndex := (k mod length (items c))%nat;
       carouselTimer := Some (next_interval c);
       intervals := [next_interval c];
       next_interval := S (next_interval c) |}.
Proof.
  intros H Hn.
  assert (Hlen : length (items c) <> 0%nat).
  { destruct (items c); [now elim Hn | discriminate]. }
  induction k as [|k IH].
  - simpl. unfold initCarousel. destruct (items c) eqn:E; [now elim Hn|].
    destruct (stopCarousel_one_interval (showCarouselItem 0 c) H) as [Ht Hi].
    rewrite Hi. simpl. rewrite Nat.sub_diag.
    unfold stopCarousel. simpl.
    destruct (carouselTimer c); simpl; rewrite E; reflexivity.
  - replace (repeat tt (S k)) with (repeat tt k ++ [tt]).
    + rewrite fold_left_app, IH. simpl. unfold carousel_tick. simpl.
      rewrite Nat.eqb_refl. simpl. unfold showCarouselItem. simpl.
      rewrite !mark_length.
      replace ((k mod length (items c) + 1) mod length (items c))%nat
        with (S k mod length (items c))%nat; [reflexivity|].
      rewrite Nat.Div0.add_mod_idemp_l. f_equal. lia.
    + simpl. symmetry. apply repeat_cons.
Qed.

(** X15. Started on slide 9 with [n] items, [n] not 0, the carousel shows
    item 0, and after [k] ticks of its interval item [k mod n]: exactly one
    item is active, the one at [carouselIndex], and after [n] ticks the
    carousel is back at item 0. *)
Theorem carousel_cycles (k : nat) (p : Page) :
  one_interval (carousel p) ->
  items (carousel p) <> [] ->
  carouselIndex
    (carousel (page_deliver
                 (SlideChanged 9
                  :: repeat (CarouselTick (next_interval (carousel p))) k) p))
  = (k mod length (items (carousel p)))%nat
  /\ items
       (carousel (page_deliver
                    (SlideChanged 9
                     :: repeat (CarouselTick (next_interval (carousel p))) k) p))
     = mark (k mod length (items (carousel p)))%nat (length (items (carousel p)))
  /\ length (filter (fun b => b)
               (items
                  (carousel (page_deliver
                               (SlideChanged 9
                                :: repeat (CarouselTick (next_interval (carousel p))) k)
                               p)))) = 1%nat.
Proof.
  intros H Hn.
  assert (Hlen : length (items (carousel p)) <> 0%nat).
  { destruct (items (carousel p)); [now elim Hn | discriminate]. }
  assert (E : carousel (page_deliver
                 (SlideChanged 9
                  :: repeat (CarouselTick (next_interval (carousel p))) k) p)
              = fold_left (fun c' _ => carousel_tick (next_interval (carousel p)) c')
                  (repeat tt k) (initCarousel (carousel p))).
  { change (page_deliver (SlideChanged 9 :: ?l) p)
      with (page_deliver l (page_handle p (SlideChanged 9))).
    change (carousel (page_handle p (SlideChanged 9)))
      with (initCarousel (carousel p)).
    assert (G : forall q, carousel (page_deliver
                   (repeat (CarouselTick (next_interval (carousel p))) k) q)
                = fold_left (fun c' _ => carousel_tick (next_interval (carousel p)) c')
                    (repeat tt k) (carousel q)).
    { induction k as [|k IH]; intros q; [reflexivity|]. simpl.
      unfold page_deliver in IH. now rewrite IH. }
    rewrite G. reflexivity. }
  rewrite E, (ticks_after_start k (carousel p) H Hn). simpl.
  split; [reflexivity|]. split; [reflexivity|].
  unfold mark. apply mark_count. split; [lia|]. simpl.
  now apply Nat.mod_upper_bound.
Qed.

Lemma music_step (p : Page) (ev : PageEvent) :
  music_shown_playing (music p) -> music_shown_playing (music (page_handle p ev)).
Proof.
  unfold music_shown_playing. destruct p as [c [a b v] vd].
  destruct ev; simpl; auto.
  - (* SlideChanged *)
    destruct (negb (indexh =? 10)); simpl; auto.
    unfold pauseMusicPlayer. simpl. destruct a as [[|]|]; simpl; auto.
    intros _ E. discriminate E.
  - (* MusicClick *)
    unfold music_click. simpl. destruct a as [[|]|]; simpl;
      try (intros _ E; discriminate E);
      intros _ _; (split; [reflexivity | destruct v; discriminate]).
  - (* MusicEnded *)
    intros _ E. discriminate E.
  - (* MusicPlayRejected *)
    destruct a; intros _ E; discriminate E.
Qed.

(** X16. The music is never shown as stopped while it plays: in every state
    reached from one where this holds, while the music plays the button
    says Pause and the visualiser, if the page has one, is moving. A change
    to any slide but 10 leaves the music not playing. *)
Theorem music_shown_while_playing (evs : list PageEvent) (i : Z) (p : Page) :
  music_shown_playing (music p) ->
  music_shown_playing (music (page_deliver evs p))
  /\ (i <> 10 ->
      musicAudio (music (page_deliver (evs ++ [SlideChanged i]) p)) <> Some false).
Proof.
  intros H. split.
  - revert p H. induction evs as [|ev evs IH]; intros p H; simpl; auto.
    apply IH. now apply music_step.
  - intros Hi. unfold page_deliver. rewrite fold_left_app. simpl.
    destruct (Z.eqb_spec i 10) as [E|_]; [contradiction|]. simpl.
    unfold pauseMusicPlayer.
    destruct (musicAudio (music (fold_left page_handle evs p))) as [[|]|] eqn:E;
      simpl; rewrite ?E; discriminate.
Qed.

Lemma carousel_runs_one_interval_witness :
  one_interval (carousel (loaded_page 4))
  /\ (length (intervals
                (carousel (page_deliver [SlideChanged 9; SlideChanged 9; DotClick 2]
                             (loaded_page 4)))) <= 1)%nat.
Proof.
  assert (H : one_interval (carousel (loaded_page 4))) by reflexivity.
  split; [exact H|].
  exact (proj1 (proj2 (carousel_runs_one_interval
                         [SlideChanged 9; SlideChanged 9; DotClick 2] 0
                         (loaded_page 4) H))).
Defined.

Lemma carousel_cycles_witness :
  one_interval (carousel (loaded_page 4))
  /\ items (carousel (loaded_page 4)) <> []
  /\ carouselIndex
       (carousel (page_deliver (SlideChanged 9 :: repeat (CarouselTick 1) 6)
                    (loaded_page 4)))
     = 2%nat.
Proof.
  assert (H : one_interval (carousel (loaded_page 4))) by reflexivity.
  assert (Hn : items (carousel (loaded_page 4)) <> []) by discriminate.
  split; [exact H|]. split; [exact Hn|].
  exact (proj1 (carousel_cycles 6 (loaded_page 4) H Hn)).
Defined.

Lemma music_shown_while_playing_witness :
  music_shown_playing (music (loaded_page 4))
  /\ music_shown_playing
       (music (page_deliver [SlideChanged 10; MusicClick; MusicPlayRejected;
                             MusicClick] (loaded_page 4))).
Proof.
  assert (H : music_shown_playing (music (loaded_page 4))).
  { intros E. discriminate E. }
  split; [exact H|].
  exact (proj1 (music_shown_while_playing
                  [SlideChanged 10; MusicClick; MusicPlayRejected; MusicClick]
                  0 (loaded_page 4) H)).
Defined.

End MediaFacts.

(** ** The audience question form: further properties *)

Module AskMoreFacts.
Import Ask AskMore.

Lemma trim_start_head (s : jsstring) (u : N) (t : jsstring) :
  trim_start s = u :: t -> is_white_space u = false.
Proof.
  intros E. destruct (AskFacts.trim_start_split s) as (pre & _ & _ & H).
  now rewrite E in H.
Qed.

Lemma trim_head (s : jsstring) (u : N) (t : jsstring) :
  trim s = u :: t -> is_white_space u = false.
Proof.
  unfold trim. intros E.
  destruct (AskFacts.trim_start_split (rev (trim_start s))) as (pre & Ep & _ & _).
  assert (Ey : trim_start (rev (trim_start s)) = rev t ++ [u]).
  { rewrite <- (rev_involutive (trim_start (rev (trim_start s)))), E.
    reflexivity. }
  rewrite Ey in Ep.
  assert (Ex : trim_start s = u :: rev (pre ++ rev t)).
  { rewrite <- (rev_involutive (trim_start s)), Ep, app_assoc, rev_app_distr.
    reflexivity. }
  exact (trim_start_head s u _ Ex).
Qed.

Lemma trim_last (s : jsstring) (t : jsstring) (u : N) :
  trim s = t ++ [u] -> is_white_space u = false.
Proof.
  unfold trim. intros E.
  assert (Ey : trim_start (rev (trim_start s)) = u :: rev t).
  { rewrite <- (rev_involutive (trim_start (rev (trim_start s)))), E.
    now rewrite rev_app_distr. }
  exact (trim_start_head _ u _ Ey).
Qed.

Lemma trim_tidy (s : jsstring) : blank s = false -> tidy (trim s).
Proof.
  intros H. destruct (AskFacts.trim_not_blank s H) as (u & t & E).
  split; [rewrite E; discriminate|]. split.
  - intros u' t' E'. now apply (trim_head s u' t').
  - intros t' u' E'. now apply (trim_last s t' u').
Qed.

(** X17. What the form sends is tidy: every request it makes carries a
    question that is not empty and neither begins nor ends with white
    space, and a name that is [null] or such a string; it goes to
    /api/questions/submit by POST as JSON. *)
Theorem requests_are_tidy (r : Reply) (f : Form) (req : Request) :
  In req (snd (on_submit r f)) ->
  tidy (question (body req))
  /\ match name (body req) with
     | None => blank (nameInput_value f) = true
     | Some n => tidy n
     end
  /\ url req = "/api/questions/submit"
  /\ method req = "POST"
  /\ content_type req = "application/json".
Proof.
  unfold on_submit.
  destruct (blank (questionInput_value f)) eqn:Hq.
  - apply AskFacts.trim_blank in Hq. rewrite Hq. intros [].
  - destruct (AskFacts.trim_not_blank _ Hq) as (u & t & E). rewrite E.
    intros [<-|[]]. simpl. rewrite <- E.
    split; [now apply trim_tidy|]. split; [|auto].
    destruct (blank (nameInput_value f)) eqn:Hn.
    + apply AskFacts.trim_blank in Hn. now rewrite Hn.
    + destruct (AskFacts.trim_not_blank _ Hn) as (u' & t' & E').
      rewrite E'. rewrite <- E'. now apply trim_tidy.
Qed.


(** X19. A failed submission can be sent again as it is: submitting the
    form once more, the fields untouched, makes the same request. *)
Theorem failed_submission_can_be_repeated (r1 r2 : Reply) (f : Form) :
  failed r1 = true ->
  snd (on_submit r2 (fst (on_submit r1 f))) = snd (on_submit r1 f).
Proof.
  intros Hf. unfold on_submit.
  destruct (trim (questionInput_value f)) as [|u t] eqn:E.
  - simpl. now rewrite E.
  - destruct r1 as [m| |[[|x d]|]|m'|m]; try discriminate; simpl; now rewrite E.
Qed.

Lemma requests_are_tidy_witness :
  In (submit_request [] (of_string "Why?"))
     (snd (on_submit response_ok (fresh_form "  " " Why? ")))
  /\ tidy (of_string "Why?").
Proof.
  assert (H : In (submit_request [] (of_string "Why?"))
                (snd (on_submit response_ok (fresh_form "  " " Why? ")))).
  { left. reflexivity. }
  split; [exact H|].
  exact (proj1 (requests_are_tidy response_ok (fresh_form "  " " Why? ")
                  (submit_request [] (of_string "Why?")) H)).
Defined.


(** A list of validation errors under [detail] is shown as the text the
    exception makes of it; an empty list as the general message. *)
Example detail_that_is_no_string :
  errorMessage_textContent
    (fst (on_submit (response_not_ok_other (of_string "[object Object]"))
            (fresh_form "Ana" "Why?")))
  = of_string "[object Object]"
  /\ errorMessage_textContent
       (fst (on_submit (response_not_ok_other []) (fresh_form "Ana" "Why?")))
     = of_string "Something went wrong. Please try again.".
Proof. split; reflexivity. Qed.

Lemma failed_submission_can_be_repeated_witness :
  failed (fetch_rejects (of_string "Failed to fetch")) = true
  /\ snd (on_submit response_ok
            (fst (on_submit (fetch_rejects (of_string "Failed to fetch"))
                    (fresh_form "Ana" "Why?"))))
     = [submit_request (of_string "Ana") (of_string "Why?")].
Proof.
  split; [reflexivity|].
  exact (failed_submission_can_be_repeated
           (fetch_rejects (of_string "Failed to fetch")) response_ok
           (fresh_form "Ana" "Why?") eq_refl).
Defined.

End AskMoreFacts.

(** ** The Supabase persistence layer *)

Module SupabaseFacts.
Import Supabase.

(** X20. Without configuration the layer stands aside: when the URL or the
    key is unset or empty and no client was made before, persisting and
    updating return [False], fetching returns the empty list, and neither
    the table nor the module state is touched. *)
Theorem unconfigured_layer_stands_aside
  (env : Env) (luck : Luck) (qid : Z) (q st : string)
  (nm sid ans : option string) (w : World) :
  configured env = false -> _client w = None ->
  persist_question env luck qid q nm sid w = (false, w)
  /\ update_question_status env luck qid st ans w = (false, w)
  /\ get_session_questions env luck sid w = ([], w).
Proof.
  unfold configured. intros Hc Hw.
  assert (G : get_client env luck w = (None, w)).
  { unfold get_client. rewrite Hw.
    destruct (truthy (SUPABASE_URL env)), (truthy (SUPABASE_ANON_KEY env));
      try discriminate; reflexivity. }
  unfold persist_question, update_question_status, get_session_questions.
  now rewrite G.
Qed.

(** X21. Once made, the client is kept: with a client in [_client],
    [get_client] returns it whatever the environment says by then and
    whether or not a client could still be made, and after one successful
    call every later call returns the same client. *)
Theorem client_is_made_once (env env' : Env) (luck luck' : Luck) (w : World) :
  (forall c, _client w = Some c -> get_client env luck w = (Some c, w))
  /\ (forall c w1, get_client env luck w = (Some c, w1) ->
      get_client env' luck' w1 = (Some c, w1)).
Proof.
  split.
  - intros c Hc. unfold get_client. now rewrite Hc.
  - intros c w1. unfold get_client.
    destruct (_client w) as [c0|] eqn:Hc.
    + intros E. inversion E; subst. now rewrite Hc.
    + destruct (_ || _); [discriminate|].
      destruct (create_client_ok luck); [|discriminate].
      intros E. inversion E; subst. reflexivity.
Qed.

Lemma get_client_questions (env : Env) (luck : Luck) (w : World) :
  questions (snd (get_client env luck w)) = questions w.
Proof.
  unfold get_client. destruct (_client w); [reflexivity|].
  destruct (_ || _); [reflexivity|].
  destruct (create_client_ok luck); reflexivity.
Qed.

(** X22. Persisting either adds exactly one pending row or changes nothing.
    It returns [True] only when a client is at hand, the request goes
    through and the id is not in the table yet; the table is then the old
    one followed by the new row, filed under the session given, or under
    [QA_SESSION_ID], or under "default". In every other case, a taken id
    among them, it returns [False] and the table is as before. *)
Theorem persist_adds_one_row_or_nothing
  (env : Env) (luck : Luck) (qid : Z) (q : string) (nm sid : option string)
  (w : World) :
  (fst (persist_question env luck qid q nm sid w) = true ->
   request_ok luck = true
   /\ has_id qid (questions w) = false
   /\ questions (snd (persist_question env luck qid q nm sid w))
      = questions w ++ [new_row qid q nm (session_of env sid)])
  /\ (fst (persist_question env luck qid q nm sid w) = false ->
      questions (snd (persist_question env luck qid q nm sid w)) = questions w).
Proof.
  unfold persist_question.
  pose proof (get_client_questions env luck w) as G.
  destruct (get_client env luck w) as [[c|] w1]; simpl in *.
  - rewrite G. destruct (request_ok luck); simpl.
    + destruct (has_id qid (questions w)); simpl.
      * split; [discriminate | now intros _].
      * split; [now intros _ | discriminate].
    + split; [discriminate | now intros _].
  - split; [discriminate | now intros _].
Qed.

Lemma insert_row_perm (r : Row) (l : list Row) :
  Permutation.Permutation (insert_row r l) (r :: l).
Proof.
  induction l as [|x l IH]; simpl; auto.
  destruct (id r <=? id x); auto.
  eapply Permutation.perm_trans; [apply Permutation.perm_skip, IH|].
  apply Permutation.perm_swap.
Qed.

Lemma order_by_id_perm (l : list Row) : Permutation.Permutation (order_by_id l) l.
Proof.
  induction l as [|x l IH]; simpl; auto.
  eapply Permutation.perm_trans; [apply insert_row_perm|].
  now apply Permutation.perm_skip.
Qed.

Lemma insert_row_sorted (r : Row) (l : list Row) :
  Sorted.Sorted (fun a b => id a <= id b) l ->
  Sorted.Sorted (fun a b => id a <= id b) (insert_row r l).
Proof.
  induction l as [|x l IH]; simpl; intros H.
  - repeat constructor.
  - destruct (Z.leb_spec (id r) (id x)).
    + constructor; auto.
    + inversion H as [|? ? Hs Hh]; subst.
      constructor; auto.
      destruct l as [|y l]; simpl.
      * constructor. lia.
      * destruct (Z.leb_spec (id r) (id y)); constructor; try lia.
        now inversion Hh.
Qed.

Lemma order_by_id_sorted (l : list Row) :
  Sorted.Sorted (fun a b => id a <= id b) (order_by_id l).
Proof.
  induction l as [|x l IH]; simpl; [constructor | now apply insert_row_sorted].
Qed.

(** X23. Fetching returns the questions of one session only, all of them,
    in the order of their ids: with a client at hand and the request going
    through, a row is in the result exactly when it is in the table under
    the session asked for, and the result is sorted by id. *)
Theorem fetch_returns_the_session_in_id_order
  (env : Env) (luck : Luck) (sid : option string) (c : Client) (w : World) :
  _client w = Some c -> request_ok luck = true ->
  (forall r, In r (fst (get_session_questions env luck sid w))
             <-> In r (questions w) /\ session_id r = session_of env sid)
  /\ Sorted.Sorted (fun a b => id a <= id b)
       (fst (get_session_questions env luck sid w))
  /\ snd (get_session_questions env luck sid w) = w.
Proof.
  intros Hc Hr. unfold get_session_questions, get_client. rewrite Hc, Hr. simpl.
  split; [|split; [apply order_by_id_sorted | reflexivity]].
  intros r. split.
  - intros H.
    apply (Permutation.Permutation_in _ (order_by_id_perm _)) in H.
    apply filter_In in H. destruct H as [H1 H2].
    apply String.eqb_eq in H2. auto.
  - intros [H1 H2].
    apply (Permutation.Permutation_in _ (Permutation.Permutation_sym (order_by_id_perm _))).
    apply filter_In. split; auto. now apply String.eqb_eq.
Qed.

(** X24. What is persisted is found again: after a successful
    [persist_question] the question is among the questions fetched for its
    session, pending and without an answer. *)
Theorem persisted_question_is_fetched
  (env : Env) (qid : Z) (q : string) (nm sid : option string) (w : World) :
  fst (persist_question env lucky qid q nm sid w) = true ->
  In (new_row qid q nm (session_of env sid))
     (fst (get_session_questions env lucky sid
             (snd (persist_question env lucky qid q nm sid w)))).
Proof.
  unfold persist_question, get_session_questions.
  destruct (get_client env lucky w) as [[c|] w1] eqn:G; simpl; [|discriminate].
  destruct (has_id qid (questions w1)); simpl; [discriminate|]. intros _.
  assert (Hc : _client w1 = Some c).
  { revert G. unfold get_client. destruct (_client w) as [c0|] eqn:Hw.
    - intros E. inversion E; subst. exact Hw.
    - destruct (_ || _); [discriminate|]. simpl.
      intros E. inversion E; subst. reflexivity. }
  unfold get_client. simpl. rewrite Hc. simpl.
  apply (Permutation.Permutation_in _ (Permutation.Permutation_sym (order_by_id_perm _))).
  apply filter_In. split.
  - apply in_or_app. right. now left.
  - simpl. apply String.eqb_refl.
Qed.

(** X25. An update reaches the rows with the given id in the session of
    [QA_SESSION_ID] ("default" when unset) and no others: every other row,
    a row with that id filed under another session among them, is left as
    it is. The status is always written; the answer and [answered_at] only
    when the answer is a non-empty string. The call returns [True] whenever
    the request goes through, also when no row matched. *)
Theorem update_reaches_its_session_only
  (env : Env) (luck : Luck) (qid : Z) (st : string) (ans : option string)
  (c : Client) (w : World) :
  _client w = Some c -> request_ok luck = true ->
  fst (update_question_status env luck qid st ans w) = true
  /\ length (questions (snd (update_question_status env luck qid st ans w)))
     = length (questions w)
  /\ (forall r, In r (questions w) ->
      matches qid (getenv (QA_SESSION_ID env) "default") r = false ->
      In r (questions (snd (update_question_status env luck qid st ans w))))
  /\ (forall r, In r (questions w) ->
      matches qid (getenv (QA_SESSION_ID env) "default") r = true ->
      In (apply_update st ans r)
         (questions (snd (update_question_status env luck qid st ans w))))
  /\ (forall r, status (apply_update st ans r) = st
                /\ (truthy ans = false ->
                    answer (apply_update st ans r) = answer r
                    /\ answered_at (apply_update st ans r) = answered_at r)
                /\ (truthy ans = true -> answer (apply_update st ans r) = ans))
  /\ (forallb (fun r => negb (matches qid (getenv (QA_SESSION_ID env) "default") r))
        (questions w) = true ->
      questions (snd (update_question_status env luck qid st ans w)) = questions w).
Proof.
  intros Hc Hr. unfold update_question_status, get_client. rewrite Hc, Hr. simpl.
  split; [reflexivity|]. split; [apply length_map|].
  split; [|split; [|split]].
  - intros r Hin Hm. apply in_map_iff. exists r. now rewrite Hm.
  - intros r Hin Hm. apply in_map_iff. exists r. now rewrite Hm.
  - intros r. unfold apply_update. simpl.
    split; [reflexivity|]. split; [intros ->; split; reflexivity|].
    intros ->. reflexivity.
  - intros H. induction (questions w) as [|x l IH]; simpl; auto.
    simpl in H. apply andb_true_iff in H. destruct H as [Hx Hl].
    apply negb_true_iff in Hx. rewrite Hx. f_equal. now apply IH.
Qed.

Lemma unconfigured_layer_stands_aside_witness :
  configured (mkEnv None (Some "key") None) = false
  /\ _client fresh_world = None
  /\ persist_question (mkEnv None (Some "key") None) lucky 1 "Why?" None None
       fresh_world
     = (false, fresh_world).
Proof.
  split; [reflexivity|]. split; [reflexivity|].
  exact (proj1 (unconfigured_layer_stands_aside (mkEnv None (Some "key") None)
                  lucky 1 "Why?" "answered" None None None fresh_world
                  eq_refl eq_refl)).
Defined.

Lemma client_is_made_once_witness :
  get_client guide_env lucky fresh_world
  = (Some (mkClient "https://your-project-id.supabase.co" "your-anon-key-here"),
     mkWorld (Some (mkClient "https://your-project-id.supabase.co"
                      "your-anon-key-here")) [])
  /\ get_client (mkEnv None None None) (mkLuck false false)
       (mkWorld (Some (mkClient "https://your-project-id.supabase.co"
                         "your-anon-key-here")) [])
     = (Some (mkClient "https://your-project-id.supabase.co" "your-anon-key-here"),
        mkWorld (Some (mkClient "https://your-project-id.supabase.co"
                         "your-anon-key-here")) []).
Proof.
  split; [reflexivity|].
  exact (proj2 (client_is_made_once guide_env (mkEnv None None None) lucky
                  (mkLuck false false) fresh_world) _ _ eq_refl).
Defined.

Lemma persist_adds_one_row_or_nothing_witness :
  fst (persist_question guide_env lucky 1 "Why?" (Some "Ana") None fresh_world)
  = true
  /\ questions (snd (persist_question guide_env lucky 1 "Why?" (Some "Ana") None
                       fresh_world))
     = [new_row 1 "Why?" (Some "Ana") "presentation_2025_02_18"].
Proof.
  split; [reflexivity|].
  exact (proj2 (proj2 (proj1 (persist_adds_one_row_or_nothing guide_env lucky 1
                  "Why?" (Some "Ana") None fresh_world) eq_refl))).
Defined.

Lemma fetch_returns_the_session_in_id_order_witness :
  _client unsorted_world = Some (mkClient "u" "k")
  /\ request_ok lucky = true
  /\ Sorted.Sorted (fun a b => id a <= id b)
       (fst (get_session_questions guide_env lucky (Some "s") unsorted_world)).
Proof.
  split; [reflexivity|]. split; [reflexivity|].
  exact (proj1 (proj2 (fetch_returns_the_session_in_id_order guide_env lucky
                         (Some "s") (mkClient "u" "k") unsorted_world
                         eq_refl eq_refl))).
Defined.

Lemma persisted_question_is_fetched_witness :
  fst (persist_question guide_env lucky 1 "Why?" (Some "Ana") None fresh_world)
  = true
  /\ In (new_row 1 "Why?" (Some "Ana") "presentation_2025_02_18")
       (fst (get_session_questions guide_env lucky None
               (snd (persist_question guide_env lucky 1 "Why?" (Some "Ana") None
                       fresh_world)))).
Proof.
  split; [reflexivity|].
  exact (persisted_question_is_fetched guide_env 1 "Why?" (Some "Ana") None
           fresh_world eq_refl).
Defined.

Lemma update_reaches_its_session_only_witness :
  _client two_sessions_world = Some (mkClient "u" "k")
  /\ request_ok lucky = true
  /\ fst (update_question_status guide_env lucky 2 "answered" (Some "Yes.")
            two_sessions_world)
     = true.
Proof.
  split; [reflexivity|]. split; [reflexivity|].
  exact (proj1 (update_reaches_its_session_only guide_env lucky 2 "answered"
                  (Some "Yes.") (mkClient "u" "k") two_sessions_world
                  eq_refl eq_refl)).
Defined.

(** A question filed under a session of its own is not reached by the
    update, which looks under [QA_SESSION_ID]; the call still returns
    [True]. *)
Example update_misses_other_session :
  update_question_status guide_env lucky 2 "answered" (Some "Yes.")
    two_sessions_world
  = (true, two_sessions_world).
Proof. reflexivity. Qed.

Example fetch_in_id_order :
  fst (get_session_questions guide_env lucky (Some "s") unsorted_world)
  = [new_row 1 "A?" None "s"; new_row 2 "B?" None "s"].
Proof. reflexivity. Qed.

End SupabaseFacts.

(** ** The status command and the status message *)

Module StatusFacts.
Import Queue StateMachine.

Section Status.

Variable run_command : Command -> Machine -> Machine.
Variable stores : Command -> option Command -> option Command.
Variable interrupt : Command -> Engine Machine -> Engine Machine.

Abbreviation enqueue := (Queue.enqueue Machine run_command stores interrupt).
Abbreviation run := (Queue.run Machine run_command stores interrupt).

(** Status commands that arrive at a busy queue are put at its end. *)
Lemma status_commands_pile_up (t : Z) (n : nat) (e : Engine Machine) :
  is_busy (cq e) = true ->
  run (repeat (Enqueue (status_command t)) n) e
  = {| cq := {| queue := queue (cq e) ++ repeat (status_command t) n;
                current_action := current_action (cq e);
                is_busy := true |};
       machine := machine e;
       log := log e |}.
Proof.
  revert e. induction n as [|n IH]; intros e Hb.
  - destruct e as [[q cur b] m l]. simpl in *. subst b.
    now rewrite app_nil_r.
  - change (run (repeat (Enqueue (status_command t)) (S n)) e)
      with (run (repeat (Enqueue (status_command t)) n)
              (enqueue (status_command t) e)).
    assert (E : enqueue (status_command t) e
                = {| cq := {| queue := queue (cq e) ++ [status_command t];
                              current_action := current_action (cq e);
                              is_busy := true |};
                     machine := machine e;
                     log := log e |}).
    { unfold Queue.enqueue. simpl. now rewrite Hb. }
    rewrite E, IH by reflexivity. simpl. now rewrite <- app_assoc.
Qed.


End Status.



End StatusFacts.

